(** * nodebb-plugin-arma3-slotting: the request gates and the plugin hooks

  A shallow embedding of the API module that [plugin.ts] loads as
  [./lib/api] (date parsing of topic titles, the access-control
  middleware, the route table) and of [plugin.ts] itself (the attendance
  hooks), followed by the properties proved about them.

  JavaScript strings are sequences of UTF-16 code units, numbers are IEEE
  binary64 values, and every node-style dependency [(err, result) => ...]
  is an oracle of the surrounding world. *)

From Stdlib Require Import List NArith ZArith Bool String Ascii Lia Floats.
Import ListNotations.

Set Implicit Arguments.
Set Warnings "-register-all".  (* [json] nests through pairs *)

(* ================================================================== *)
(** * Part I: definitions *)
(* ================================================================== *)

(** ** JavaScript strings *)

Module JS.

(** A string is a list of UTF-16 code units. *)
Definition jsstring := list N.

Definition str (s : string) : jsstring :=
  map N_of_ascii (list_ascii_of_string s).

Definition between (lo hi c : N) : bool := (lo <=? c)%N && (c <=? hi)%N.

Definition is_digit (c : N) : bool := between 48 57 c.
Definition is_lower (c : N) : bool := between 97 122 c.
Definition is_upper (c : N) : bool := between 65 90 c.

(** WhiteSpace and LineTerminator code points, the ones
    [String.prototype.trim] strips. *)
Definition isWhiteSpace (c : N) : bool :=
  between 9 13 c || (c =? 32)%N || (c =? 160)%N || (c =? 5760)%N
  || between 8192 8202 c || (c =? 8232)%N || (c =? 8233)%N
  || (c =? 8239)%N || (c =? 8287)%N || (c =? 12288)%N || (c =? 65279)%N.

Fixpoint trimStart (s : jsstring) : jsstring :=
  match s with
  | [] => []
  | c :: r => if isWhiteSpace c then trimStart r else s
  end.

Definition trimEnd (s : jsstring) : jsstring := rev (trimStart (rev s)).

Definition trim (s : jsstring) : jsstring := trimEnd (trimStart s).

(** Truthiness of a string: only the empty string is falsy. *)
Definition truthy_str (s : jsstring) : bool :=
  match s with [] => false | _ => true end.

Fixpoint eqb_str (a b : jsstring) : bool :=
  match a, b with
  | [], [] => true
  | x :: a', y :: b' => (x =? y)%N && eqb_str a' b'
  | _, _ => false
  end.

(** [parseInt(s, 10)]: leading white space, an optional sign, then the
    longest run of decimal digits, read as an integer and returned as the
    Number nearest to it (ties to even); NaN without a digit. *)
Fixpoint digits_value (acc : Z) (s : jsstring) : Z :=
  match s with
  | c :: r => if is_digit c
              then digits_value (10 * acc + Z.of_N (c - 48)) r
              else acc
  | [] => acc
  end.

Definition starts_with_digit (s : jsstring) : bool :=
  match s with c :: _ => is_digit c | [] => false end.

(** The binary64 value of an integer: round to nearest, ties to even,
    infinity beyond the range. *)
Definition number_of_int (z : Z) : float :=
  SF2Prim (SpecFloat.binary_normalize prec emax z 0 false).

Definition parseInt10 (s : jsstring) : float :=
  match trimStart s with
  | 45%N :: r =>
      if starts_with_digit r then (- number_of_int (digits_value 0 r))%float else nan
  | 43%N :: r => if starts_with_digit r then number_of_int (digits_value 0 r) else nan
  | r => if starts_with_digit r then number_of_int (digits_value 0 r) else nan
  end.

(** [!n] for a Number: NaN, 0 and -0 are falsy. *)
Definition truthy_number (n : float) : bool :=
  negb (PrimFloat.is_nan n || PrimFloat.is_zero n).

Fixpoint starts_with (p s : jsstring) : bool :=
  match p, s with
  | [], _ => true
  | x :: p', y :: s' => (x =? y)%N && starts_with p' s'
  | _ :: _, [] => false
  end.

(** The text before and the text behind the leftmost occurrence of [pat]. *)
Fixpoint split_at_first (pat s : jsstring) : option (jsstring * jsstring) :=
  if starts_with pat s then Some ([], skipn (List.length pat) s)
  else match s with
       | [] => None
       | c :: s' =>
           match split_at_first pat s' with
           | Some (before, after) => Some (c :: before, after)
           | None => None
           end
       end.

(** The replacement text of [String.prototype.replace] for a pattern that
    is a string (no capture groups): [$$] is a dollar sign, [$&] the
    matched text, [$`] the text before the match, [$'] the text behind it;
    every other dollar sign stands for itself. *)
Fixpoint expand (matched before after replacement : jsstring) : jsstring :=
  match replacement with
  | [] => []
  | c :: r =>
      if (c =? 36)%N then
        match r with
        | d :: r' =>
            if (d =? 36)%N then 36%N :: expand matched before after r'
            else if (d =? 38)%N then matched ++ expand matched before after r'
            else if (d =? 96)%N then before ++ expand matched before after r'
            else if (d =? 39)%N then after ++ expand matched before after r'
            else c :: expand matched before after r
        | [] => [c]
        end
      else c :: expand matched before after r
  end.

(** [s.replace(pat, replacement)] for a string [pat]: the leftmost
    occurrence is replaced, a string without one is returned as it is. *)
Definition replace (s pat replacement : jsstring) : jsstring :=
  match split_at_first pat s with
  | None => s
  | Some (before, after) => before ++ expand pat before after replacement ++ after
  end.

End JS.

(** ** A backtracking matcher for the regular expressions of the source *)

Module Regex.
Import JS.

Inductive regex : Type :=
| Chr (c : N)                            (* a literal character *)
| Cls (neg : bool) (ranges : list (N * N)) (* [a-b...] and [^a-b...] *)
| Seq (r1 r2 : regex)
| Rep (n : nat) (r : regex)              (* r{n} *)
| Opt (r : regex)                        (* r?, greedy *)
| Grp (i : nat) (r : regex).             (* the i-th capturing group *)

(** Matcher state: unread input, the text matched so far (reversed) and
    the captures made so far. *)
Record mstate : Type := MState {
  rest : jsstring;
  seen : jsstring;
  caps : list (nat * jsstring)
}.

Definition init (s : jsstring) : mstate := MState s [] [].

Fixpoint capture_of (i : nat) (cs : list (nat * jsstring)) : option jsstring :=
  match cs with
  | [] => None
  | (j, w) :: cs' => if Nat.eqb i j then Some w else capture_of i cs'
  end.

(** Without the [u] flag, Canonicalize maps a code unit to its upper case
    unless that would turn a unit >= 128 into an ASCII one; so whether a
    unit agrees with an ASCII class member up to case is decided on the
    ASCII letters alone. *)
Definition to_upper (c : N) : N := if is_lower c then (c - 32)%N else c.
Definition to_lower (c : N) : N := if is_upper c then (c + 32)%N else c.

Definition same_char (icase : bool) (a c : N) : bool :=
  (a =? c)%N || (icase && (to_upper a =? to_upper c)%N).

Definition in_range (icase : bool) (c : N) (r : N * N) : bool :=
  between (fst r) (snd r) c
  || (icase && (between (fst r) (snd r) (to_upper c)
                || between (fst r) (snd r) (to_lower c))).

Definition in_class (icase neg : bool) (rs : list (N * N)) (c : N) : bool :=
  xorb neg (existsb (in_range icase c) rs).

Definition capture (i : nat) (st0 st1 : mstate) : mstate :=
  MState (rest st1) (seen st1)
         ((i, rev (firstn (List.length (seen st1) - List.length (seen st0)) (seen st1)))
            :: caps st1).

Section Matcher.
Variable icase : bool.
Variable R : Type.

Definition step (p : N -> bool) (st : mstate) (k : mstate -> option R)
  : option R :=
  match rest st with
  | c :: r => if p c then k (MState r (c :: seen st) (caps st)) else None
  | [] => None
  end.

(** [m r st k]: match [r] at the head of the unread input, then run the
    continuation; alternatives are tried in the priority order of a
    backtracking engine. *)
Fixpoint m (r : regex) (st : mstate) (k : mstate -> option R) {struct r}
  : option R :=
  match r with
  | Chr c => step (same_char icase c) st k
  | Cls neg rs => step (in_class icase neg rs) st k
  | Seq a b => m a st (fun st' => m b st' k)
  | Rep n a =>
      (fix rep (n : nat) (st : mstate) : option R :=
         match n with
         | O => k st
         | S n' => m a st (fun st' => rep n' st')
         end) n st
  | Opt a => match m a st k with
             | Some x => Some x
             | None => k st
             end
  | Grp i a => m a st (fun st' => k (capture i st st'))
  end.
End Matcher.

(** The result of [String.prototype.match] for a regular expression
    without the [g] flag: the leftmost match, or [None] for [null]. *)
Record match_array : Type := MatchArray {
  whole : jsstring;                 (* index 0 *)
  group : nat -> option jsstring    (* index i >= 1, None is undefined *)
}.

Definition to_array (st : mstate) : match_array :=
  MatchArray (rev (seen st)) (fun i => capture_of i (caps st)).

Fixpoint search (icase : bool) (r : regex) (s : jsstring) : option mstate :=
  match m icase r (init s) (@Some mstate) with
  | Some st => Some st
  | None => match s with
            | [] => None
            | _ :: s' => search icase r s'
            end
  end.

Definition exec (icase : bool) (r : regex) (s : jsstring) : option match_array :=
  option_map to_array (search icase r s).

(** The words a regular expression matches, without priorities. *)
Inductive lang (icase : bool) : regex -> jsstring -> Prop :=
| L_Chr c x : same_char icase c x = true -> lang icase (Chr c) [x]
| L_Cls neg rs x : in_class icase neg rs x = true -> lang icase (Cls neg rs) [x]
| L_Seq a b u v : lang icase a u -> lang icase b v -> lang icase (Seq a b) (u ++ v)
| L_Rep0 a : lang icase (Rep 0 a) []
| L_RepS n a u v : lang icase a u -> lang icase (Rep n a) v ->
                   lang icase (Rep (S n) a) (u ++ v)
| L_OptNone a : lang icase (Opt a) []
| L_OptSome a u : lang icase a u -> lang icase (Opt a) u
| L_Grp i a u : lang icase a u -> lang icase (Grp i a) u.

End Regex.

(** ** The API module, [./lib/api] *)

Module Api.
Import JS Regex.

(** *** Values that cross the HTTP boundary *)

(** The errors dependencies report; [message] is the field that
    [exceptionToErrorResponse] reads. *)
Record error : Type := Error { message : jsstring }.

Inductive json : Type :=
| JNull
| JBool (b : bool)
| JNum (z : Z)
| JStr (s : jsstring)
| JObj (fields : list (string * json))
| JErr (e : error).   (* an error value handed to [res.json] as it is *)

(** The verbs Express tells apart when it routes: HEAD is answered by the
    handlers registered for GET, OPTIONS and every other verb only by the
    handlers registered for them or for [all]; [PATCH] stands for every
    further verb. *)
Inductive verb : Type := GET | HEAD | POST | PUT | DELETE | OPTIONS | PATCH.

(** A request: verb, path below the API prefix split at the slashes,
    [req.uid] (0 for a guest) and the [X-Api-Key] header. *)
Record request : Type := Request {
  method : verb;
  path : list jsstring;
  uid : Z;
  x_api_key : option jsstring
}.

(** [req.params] as the matching route fills it. *)
Record params : Type := Params {
  tid : jsstring;
  matchid : option jsstring
}.

(** What a handler does with the request: call [next], end the response,
    or throw from inside a dependency's callback. *)
Inductive outcome : Type :=
| Next
| Respond (status : Z) (body : json)
| Throw (e : error).

(** *** Module state and dependencies *)

Record config : Type := Config {
  apiKey : option jsstring;          (* [let apiKey;] is undefined at first *)
  allowedCategories : list Z
}.

Definition initial_config : config := Config None [].

Definition setApiKey (newApiKey : jsstring) (c : config) : config :=
  Config (Some newApiKey) (allowedCategories c).

Definition setAllowedCategories (cs : list Z) (c : config) : config :=
  Config (apiKey c) cs.

Inductive api : Type :=
| matchApi_getAll | matchApi_post | matchApi_put | matchApi_get | matchApi_del
| slottedUsersApi_get
| shareApi_getAll | shareApi_get | shareApi_post | shareApi_del
| slotApi_getAll
| userApi_put | userApi_del | userApi_get
| reservationApi_put | reservationApi_del | reservationApi_get.

(** Node-style callbacks [(err, result)]: [inl e] is a reported error. *)
Record world : Type := World {
  cfg : config;
  topicDb_exists : jsstring -> error + bool;
  topicDb_getTitle : jsstring -> error + option jsstring;
  topicDb_getCategoryId : jsstring -> error + Z;
  topicDb_isAllowedToEdit : Z -> float -> error + bool;
  shareDb_getFromDb : jsstring -> option jsstring -> jsstring -> error + bool;
  userDb_getGroups : Z -> error + json;       (* [groups[req.uid]] *)
  canSee : Z -> jsstring -> error + bool;
  canAttend : Z -> jsstring -> error + bool;
  Date_parse : jsstring -> option Z;          (* [new Date(s)], None is Invalid Date *)
  now : Z;                                    (* [new Date().getTime()] *)
  api_handler : api -> request -> params -> outcome
}.

(** The dependencies a handler consults, in the order it consults them. *)
Inductive call : Type :=
| C_exists (t : jsstring)
| C_getTitle (t : jsstring)
| C_getCategoryId (t : jsstring)
| C_isAllowedToEdit (u : Z) (t : float)
| C_shareGetFromDb (t : jsstring) (mid : option jsstring) (key : jsstring)
| C_getGroups (u : Z)
| C_canSee (u : Z) (t : jsstring)
| C_canAttend (u : Z) (t : jsstring)
| C_loggerError (u : Z) (t : float)
| C_api (a : api).

(** Handlers run in a writer monad over the consulted dependencies. *)
Definition M (A : Type) : Type := list call * A.

Definition ret {A} (a : A) : M A := ([], a).

Definition bind {A B} (x : M A) (f : A -> M B) : M B :=
  let (t1, a) := x in let (t2, b) := f a in (t1 ++ t2, b).

Definition ask {A} (c : call) (answer : A) : M A := ([c], answer).

Notation "x <- c1 ;; c2" := (bind c1 (fun x => c2))
  (at level 61, c1 at next level, right associativity).

(** *** Titles and dates *)

Definition exceptionToErrorResponse (e : error) : json :=
  JObj [("message"%string, JStr (message e))].

Definition digit : regex := Cls false [(48, 57)%N].

(** [([0-9]{4}-[0-9]{2}-[0-9]{2})] *)
Definition re_date : regex :=
  Grp 1 (Seq (Rep 4 digit)
        (Seq (Chr 45)
        (Seq (Rep 2 digit)
        (Seq (Chr 45)
             (Rep 2 digit))))).

(** [[^0-9a-z]] *)
Definition not_alnum : regex := Cls true [(48, 57)%N; (97, 122)%N].

(** [/([0-9]{4}-[0-9]{2}-[0-9]{2})([^0-9a-z])/i] *)
Definition re_topicIsEvent : regex := Seq re_date (Grp 2 not_alnum).

(** [/([0-9]{4}-[0-9]{2}-[0-9]{2})( [0-9:+ ])?[^0-9a-z]/i] *)
Definition re_secondsToEvent : regex :=
  Seq re_date
 (Seq (Opt (Grp 2 (Seq (Chr 32)
                       (Cls false [(48, 57); (58, 58); (43, 43); (32, 32)]%N))))
      not_alnum).

Definition topicIsEvent (title : jsstring) : option match_array :=
  exec true re_topicIsEvent (trim title).

Definition truthy_match (r : option match_array) : bool :=
  match r with Some _ => true | None => false end.

(** A time value: integral milliseconds since the epoch, at most 8.64e15
    in magnitude, or [None] for NaN. Sums of a time value and a day stay
    below 2^53, so they are exact in binary64 and are taken in [Z]. *)
Definition TimeClip (t : Z) : option Z :=
  if (Z.abs t <=? 8640000000000000)%Z then Some t else None.

Definition number_of_Z (z : Z) : float :=
  match z with
  | Z0 => 0%float
  | Zpos _ => PrimFloat.of_uint63 (Uint63.of_Z z)
  | Zneg p => (- PrimFloat.of_uint63 (Uint63.of_Z (Zpos p)))%float
  end.

Definition getTime (d : option Z) : float :=
  match d with Some t => number_of_Z t | None => nan end.

(** [d.setTime(d.getTime() + 86400 * 1000)] *)
Definition add_day (d : option Z) : option Z :=
  match d with
  | Some t => TimeClip (t + 86400 * 1000)
  | None => None
  end.

Definition truthy_group (g : option jsstring) : bool :=
  match g with Some s => truthy_str s | None => false end.

(** The Date object [secondsToEvent] ends up with for a match. *)
Definition eventDate (w : world) (dateParts : match_array) : option Z :=
  let d := Date_parse w (whole dateParts) in
  if negb (truthy_group (group dateParts 2)) then add_day d else d.

Definition secondsToEvent (w : world) (title : jsstring) : float :=
  match exec true re_secondsToEvent (trim title) with
  | None => (-1)%float
  | Some dateParts =>
      if negb (truthy_str (whole dateParts)) then (-1)%float
      else ((getTime (eventDate w dateParts) - number_of_Z (now w)) / 1000)%float
  end.

(** *** The gates *)

Definition msg (s : string) : json := JObj [("message"%string, JStr (str s))].

(** [{message: template.replace("%d", req.params.tid)}] *)
Definition msg_tid (template : string) (t : jsstring) : json :=
  JObj [("message"%string, JStr (replace (str template) (str "%d") t))].

(** [apiKey && (req.header("X-Api-Key") === apiKey)] *)
Definition presents_api_key (w : world) (req : request) : bool :=
  match apiKey (cfg w), x_api_key req with
  | Some k, Some h => truthy_str k && eqb_str h k
  | _, _ => false
  end.


(** [!tid] for [tid = parseInt(req.params.tid, 10)]: NaN and 0 are falsy. *)
Definition truthy_int (n : float) : bool := truthy_number n.

Definition requireEventInFuture (w : world) (req : request) (p : params) : M outcome :=
  r <- ask (C_getTitle (tid p)) (topicDb_getTitle w (tid p)) ;;
  match r with
  | inl err => ret (Respond 500 (exceptionToErrorResponse err))
  | inr title =>
      match title with
      | None | Some [] =>
          ret (Respond 404 (msg_tid "topic %d does not exist or doesnt have a title oO"
                                    (tid p)))
      | Some title =>
          if negb (truthy_match (topicIsEvent title))
          then ret (Respond 404 (msg_tid "topic %d is no event" (tid p)))
          else if (secondsToEvent w title <? 0)%float
          then ret (Respond 403 (msg_tid "too late. event start of %d is passed"
                                         (tid p)))
          else ret Next
      end
  end.

Definition requireTopic (w : world) (req : request) (p : params) : M outcome :=
  r <- ask (C_exists (tid p)) (topicDb_exists w (tid p)) ;;
  match r with
  | inl err => ret (Respond 500 (exceptionToErrorResponse err))
  | inr false => ret (Respond 404 (msg_tid "topic %d does not exist" (tid p)))
  | inr true => ret Next
  end.

Definition methodNotAllowed (w : world) (req : request) (p : params) : M outcome :=
  ret (Respond 405 (msg "Method not allowed")).

Definition restrictCategories (w : world) (req : request) (p : params) : M outcome :=
  match allowedCategories (cfg w) with
  | [] => ret Next
  | cs =>
      r <- ask (C_getCategoryId (tid p)) (topicDb_getCategoryId w (tid p)) ;;
      match r with
      | inl err => ret (Respond 500 (exceptionToErrorResponse err))
      | inr cid =>
          if negb (existsb (Z.eqb cid) cs)
          then ret (Respond 404 (msg "API disabled for this category"))
          else ret Next
      end
  end.

Definition requireLoggedIn (w : world) (req : request) (p : params) : M outcome :=
  if presents_api_key w req then ret Next
  else if negb (uid req =? 0)%Z then ret Next
  else ret (Respond 401 (msg "plz log in to access this API")).

Definition requireCanSeeAttendance (w : world) (req : request) (p : params) : M outcome :=
  r <- ask (C_canSee (uid req) (tid p)) (canSee w (uid req) (tid p)) ;;
  match r with
  | inl err => ret (Throw err)
  | inr true => ret Next
  | inr false => ret (Respond 403 (msg "you are not allowed to see this"))
  end.

Definition requireCanWriteAttendance (w : world) (req : request) (p : params) : M outcome :=
  match x_api_key req with
  | Some (c :: k) =>
      let key := c :: k in
      r <- ask (C_shareGetFromDb (tid p) (matchid p) key)
               (shareDb_getFromDb w (tid p) (matchid p) key) ;;
      match r with
      | inr true => ret Next
      | _ => ret (Respond 403 (msg "Invalid share id"))
      end
  | _ =>
      r <- ask (C_canAttend (uid req) (tid p)) (canAttend w (uid req) (tid p)) ;;
      match r with
      | inl err => ret (Throw err)
      | inr true => ret Next
      | inr false => ret (Respond 403 (msg "you are not allowed to edit this"))
      end
  end.

Definition requireAdminOrThreadOwner (w : world) (req : request) (p : params) : M outcome :=
  let tid := parseInt10 (tid p) in
  let uid := uid req in
  if presents_api_key w req then ret Next
  else if negb (truthy_int tid) || (uid =? 0)%Z
  then ret (Respond 400 (msg "must be logged in and provide topic id"))
  else
    r <- ask (C_isAllowedToEdit uid tid) (topicDb_isAllowedToEdit w uid tid) ;;
    match r with
    | inl err => ret (Respond 500 (JErr err))
    | inr false =>
        _ <- ask (C_loggerError uid tid) tt ;;
        ret (Respond 403 (msg "You're not admin or owner of this topic"))
    | inr true => ret Next
    end.

Definition isAdminOrThreadOwner (w : world) (req : request) (p : params) : M outcome :=
  let tid := parseInt10 (tid p) in
  let uid := uid req in
  match x_api_key req with
  | Some (c :: k) =>
      let reqApiKey := c :: k in
      ret (Respond 200
             (JObj [("result"%string,
                     JBool (match apiKey (cfg w) with
                            | Some a => eqb_str reqApiKey a
                            | None => false
                            end))]))
  | _ =>
      if (uid =? 0)%Z
      then ret (Respond 200 (JObj [("result"%string, JBool false);
                                   ("message"%string,
                                    JStr (str "you're not logged in, btw"))]))
      else if negb (truthy_int tid)
      then ret (Respond 400 (JObj [("error"%string,
                                    JStr (str "must provide topic id"))]))
      else
        r <- ask (C_isAllowedToEdit uid tid) (topicDb_isAllowedToEdit w uid tid) ;;
        match r with
        | inl err => ret (Respond 500 (JErr err))
        | inr hasAdminPermission =>
            g <- ask (C_getGroups uid) (userDb_getGroups w uid) ;;
            match g with
            | inl error => ret (Respond 500 (JErr error))
            | inr groups =>
                ret (Respond 200 (JObj [("groups"%string, groups);
                                        ("result"%string, JBool hasAdminPermission)]))
            end
        end
  end.

Definition returnSuccess (w : world) (req : request) (p : params) : M outcome :=
  ret (Respond 200 (JObj [])).

(** *** The route table *)

Inductive handler : Type :=
| H_requireTopic | H_restrictCategories | H_requireLoggedIn
| H_requireEventInFuture | H_requireCanSeeAttendance
| H_requireCanWriteAttendance | H_requireAdminOrThreadOwner
| H_isAdminOrThreadOwner | H_returnSuccess | H_methodNotAllowed
| H_api (a : api).

Definition run_handler (h : handler) (w : world) (req : request) (p : params)
  : M outcome :=
  match h with
  | H_requireTopic => requireTopic w req p
  | H_restrictCategories => restrictCategories w req p
  | H_requireLoggedIn => requireLoggedIn w req p
  | H_requireEventInFuture => requireEventInFuture w req p
  | H_requireCanSeeAttendance => requireCanSeeAttendance w req p
  | H_requireCanWriteAttendance => requireCanWriteAttendance w req p
  | H_requireAdminOrThreadOwner => requireAdminOrThreadOwner w req p
  | H_isAdminOrThreadOwner => isAdminOrThreadOwner w req p
  | H_returnSuccess => returnSuccess w req p
  | H_methodNotAllowed => methodNotAllowed w req p
  | H_api a => ask (C_api a) (api_handler w a req p)
  end.

(** A path pattern, segment by segment: [name], [:param] or [*]. *)
Inductive seg : Type :=
| Lit (s : jsstring)
| Param (name : string)
| Star.

Fixpoint split_slash (cur : string) (s : string) : list string :=
  match s with
  | EmptyString => [cur]
  | String c s' =>
      if Ascii.eqb c "/" then cur :: split_slash EmptyString s'
      else split_slash (cur ++ String c EmptyString) s'
  end.

Definition seg_of (s : string) : seg :=
  match s with
  | String ":" name => Param name
  | String "*" EmptyString => Star
  | _ => Lit (str s)
  end.

Definition parse_pattern (s : string) : list seg :=
  map seg_of (filter (fun x => negb (String.eqb x EmptyString))
                     (split_slash EmptyString s)).

Definition set_param (name : string) (v : jsstring) (p : params) : params :=
  if String.eqb name "tid" then Params v (matchid p)
  else if String.eqb name "matchid" then Params (tid p) (Some v)
  else p.

(** A parameter takes one segment; [*] takes the rest of the path, which
    must lie below the slash before it. Requests are taken without a
    trailing slash and in the spelling of the route table. *)
Fixpoint match_path (pat : list seg) (segs : list jsstring) (p : params)
  : option params :=
  match pat, segs with
  | [], [] => Some p
  | Star :: _, _ :: _ => Some p
  | Lit s :: pat', x :: segs' =>
      if eqb_str s x then match_path pat' segs' p else None
  | Param n :: pat', x :: segs' => match_path pat' segs' (set_param n x p)
  | _, _ => None
  end.

(** One [router[methodName](path, cb)]; [None] stands for [all]. *)
Record layer : Type := Layer {
  l_method : option verb;
  l_path : string;
  l_handler : handler
}.

(** [getApiMethodGenerator]: every callback becomes a layer on the path. *)
Definition getApiMethodGenerator (methodName : option verb)
  (path : string) (cbs : list handler) : list layer :=
  map (Layer methodName path) cbs.

Definition get := getApiMethodGenerator (Some GET).
Definition pos := getApiMethodGenerator (Some POST).
Definition del := getApiMethodGenerator (Some DELETE).
Definition put := getApiMethodGenerator (Some PUT).
Definition all := getApiMethodGenerator None.

(** The layers [init] registers, in order. *)
Definition init : list layer :=
  all "/:tid" [H_requireTopic; H_restrictCategories] ++
  all "/:tid/*" [H_requireTopic; H_restrictCategories] ++
  pos "/:tid/*" [H_requireLoggedIn; H_restrictCategories; H_requireEventInFuture] ++
  put "/:tid/*" [H_requireLoggedIn; H_restrictCategories; H_requireEventInFuture] ++
  del "/:tid/*" [H_requireLoggedIn; H_restrictCategories; H_requireEventInFuture] ++

  get "/:tid" [H_requireCanSeeAttendance; H_api matchApi_getAll] ++

  get "/:tid/slotted-user-ids" [H_requireCanSeeAttendance; H_api slottedUsersApi_get] ++
  get "/:tid/has-permissions" [H_isAdminOrThreadOwner; H_returnSuccess] ++

  pos "/:tid/match" [H_requireAdminOrThreadOwner; H_api matchApi_post] ++
  all "/:tid/match" [H_methodNotAllowed] ++

  put "/:tid/match/:matchid" [H_requireAdminOrThreadOwner; H_api matchApi_put] ++
  get "/:tid/match/:matchid" [H_requireCanSeeAttendance; H_api matchApi_get] ++
  del "/:tid/match/:matchid" [H_requireAdminOrThreadOwner; H_api matchApi_del] ++
  all "/:tid/match/:matchid" [H_methodNotAllowed] ++

  get "/:tid/match/:matchid/share" [H_requireAdminOrThreadOwner; H_api shareApi_getAll] ++
  get "/:tid/match/:matchid/share/:shareid" [H_requireTopic; H_api shareApi_get] ++
  pos "/:tid/match/:matchid/share" [H_requireAdminOrThreadOwner; H_api shareApi_post] ++
  del "/:tid/match/:matchid/share" [H_requireAdminOrThreadOwner; H_api shareApi_del] ++
  all "/:tid/match/:matchid/share" [H_methodNotAllowed] ++

  get "/:tid/match/:matchid/slot" [H_requireCanSeeAttendance; H_api slotApi_getAll] ++
  all "/:tid/match/:matchid/slot" [H_methodNotAllowed] ++

  put "/:tid/match/:matchid/slot/:slotid/user" [H_requireCanWriteAttendance; H_api userApi_put] ++
  del "/:tid/match/:matchid/slot/:slotid/user" [H_requireCanWriteAttendance; H_api userApi_del] ++
  get "/:tid/match/:matchid/slot/:slotid/user" [H_requireCanSeeAttendance; H_api userApi_get] ++
  all "/:tid/match/:matchid/slot/:slotid/user" [H_methodNotAllowed] ++

  put "/:tid/match/:matchid/slot/:slotid/reservation" [H_requireAdminOrThreadOwner; H_api reservationApi_put] ++
  del "/:tid/match/:matchid/slot/:slotid/reservation" [H_requireAdminOrThreadOwner; H_api reservationApi_del] ++
  get "/:tid/match/:matchid/slot/:slotid/reservation" [H_requireCanSeeAttendance; H_api reservationApi_get] ++
  all "/:tid/match/:matchid/slot/:slotid/reservation" [H_methodNotAllowed].

Definition verb_eqb (a b : verb) : bool :=
  match a, b with
  | GET, GET | HEAD, HEAD | POST, POST | PUT, PUT | DELETE, DELETE
  | OPTIONS, OPTIONS | PATCH, PATCH => true
  | _, _ => false
  end.

(** A route registered for a verb answers that verb, and a route
    registered for GET answers HEAD as well (no route of this table is
    registered for HEAD itself). *)
Definition answers_verb (registered v : verb) : bool :=
  verb_eqb registered v || (verb_eqb v HEAD && verb_eqb registered GET).

Definition handles_method (l : layer) (v : verb) : bool :=
  match l_method l with
  | None => true
  | Some v' => answers_verb v' v
  end.

(** The router walks its layers in registration order; a layer whose verb
    and path match runs its handler, and only [next()] reaches the layers
    behind it. [Next] as the result of the walk hands the request on to
    what the host has registered behind these layers (for OPTIONS that
    includes the answer Express sends itself when no handler answers). *)
Fixpoint dispatch (ls : list layer) (w : world) (req : request) : M outcome :=
  match ls with
  | [] => ret Next
  | l :: ls' =>
      if handles_method l (method req) then
        match match_path (parse_pattern (l_path l)) (path req) (Params [] None) with
        | Some p =>
            o <- run_handler (l_handler l) w req p ;;
            match o with
            | Next => dispatch ls' w req
            | _ => ret o
            end
        | None => dispatch ls' w req
        end
      else dispatch ls' w req
  end.

Definition router (w : world) (req : request) : M outcome := dispatch init w req.

(** The HTTP surface of the specification: each listed path with the
    verbs listed for it. *)
Definition surface : list (string * list verb) :=
  [ ("/:tid", [GET]);
    ("/:tid/slotted-user-ids", [GET]);
    ("/:tid/has-permissions", [GET]);
    ("/:tid/match", [POST]);
    ("/:tid/match/:matchid", [PUT; GET; DELETE]);
    ("/:tid/match/:matchid/share", [GET; POST; DELETE]);
    ("/:tid/match/:matchid/share/:shareid", [GET]);
    ("/:tid/match/:matchid/slot", [GET]);
    ("/:tid/match/:matchid/slot/:slotid/user", [PUT; DELETE; GET]);
    ("/:tid/match/:matchid/slot/:slotid/reservation", [PUT; DELETE; GET]) ]%string.

(** The listed paths on which [init] registers [methodNotAllowed]. *)
Definition guarded_paths : list string :=
  [ "/:tid/match";
    "/:tid/match/:matchid";
    "/:tid/match/:matchid/share";
    "/:tid/match/:matchid/slot";
    "/:tid/match/:matchid/slot/:slotid/user";
    "/:tid/match/:matchid/slot/:slotid/reservation" ]%string.

End Api.

(** ** plugin.ts *)

Module Plugin.

Record error : Type := Error { message : JS.jsstring }.

(** How a promise settles. *)
Inductive settled (A : Type) : Type :=
| Resolved (a : A)
| Rejected (e : error).
Arguments Resolved {A} a.
Arguments Rejected {A} e.

(** The second argument the hooks hand to their callback: [null] or a
    list of user ids. *)
Definition cb_result : Type := option (list Z).

(** What the hooks do to the outside, in order. *)
Inductive event : Type :=
| UnattendUser (tid uid : Z)
| NotifyAutoUnslotted (tid uid : Z) (resultCount : N)
| GetSlottedUserIds (tid : Z)
| AssignUserIds (userIds : list Z)       (* [params.userIds = userIds] *)
| Callback (err : option error) (result : cb_result).

(** The collaborators; [Some e] as the answer of a plain call means that
    the call throws [e]. *)
Record env : Type := Env {
  unattendUser : Z -> Z -> settled N;
  notifyAutoUnslotted : Z -> Z -> N -> option error;
  getSlottedUserIds : Z -> settled (list Z)
}.

(** A callback [(err, result) => ...] of the host; [Some e] means that the
  call throws [e]. *)
Definition callback_fn : Type := option error -> cb_result -> option error.

Definition noop : callback_fn := fun _ _ => None.

(** Code that logs events and either completes with a value or throws. *)
Definition X (A : Type) : Type := list event * (error + A).

Definition ret {A} (a : A) : X A := ([], inr a).

Definition bind {A B} (x : X A) (f : A -> X B) : X B :=
  match x with
  | (t, inl e) => (t, inl e)
  | (t, inr a) => let (t', r) := f a in (t ++ t', r)
  end.

Definition try_catch {A} (x : X A) (h : error -> X A) : X A :=
  match x with
  | (t, inl e) => let (t', r) := h e in (t ++ t', r)
  | (t, inr a) => (t, inr a)
  end.

Definition perform (ev : event) (throws : option error) : X unit :=
  ([ev], match throws with Some e => inl e | None => inr tt end).

Notation "c1 ;; c2" := (bind c1 (fun _ => c2))
  (at level 61, right associativity).

(** [callback(err, result)] *)
Definition invoke (callback : callback_fn) (err : option error) (result : cb_result)
  : X unit :=
  perform (Callback err result) (callback err result).

(** [p.then(onResolved).catch(onRejected)]: the rejection handler also
    receives what the resolution handler throws. *)
Definition then_catch {A} (p : settled A) (onResolved : A -> X unit)
  (onRejected : error -> X unit) : X unit :=
  match p with
  | Resolved a => try_catch (onResolved a) onRejected
  | Rejected e => onRejected e
  end.

Record attendance_change : Type := AttendanceChange {
  tid : Z;
  uid : Z;
  probability : float
}.

(** The trace of [catchAttendanceChange] and how its last step ends:
    [inl e] is an exception of the callback that nothing handles. *)
Definition catchAttendanceChange (E : env) (params : attendance_change)
  (callback : option callback_fn) : X unit :=
  let callback := match callback with Some f => f | None => noop end in
  if (1 <=? probability params)%float then
    invoke callback None None
  else
    perform (UnattendUser (tid params) (uid params)) None ;;
    then_catch (unattendUser E (tid params) (uid params))
      (fun resultCount =>
         (if negb (resultCount =? 0)%N
          then perform (NotifyAutoUnslotted (tid params) (uid params) resultCount)
                       (notifyAutoUnslotted E (tid params) (uid params) resultCount)
          else ret tt) ;;
         invoke callback None None)
      (fun error => invoke callback (Some error) None).

(** The hook parameters of [filterAttendanceSlotted]; [userIds] is
    [None] while the property is unassigned. *)
Record slotted_params : Type := SlottedParams {
  f_tid : Z;
  userIds : option (list Z)
}.

Definition filterAttendanceSlotted (E : env) (params : slotted_params)
  (callback : callback_fn) : X unit :=
  let tid := f_tid params in
  perform (GetSlottedUserIds tid) None ;;
  then_catch (getSlottedUserIds E tid)
    (fun userIds =>
       perform (AssignUserIds userIds) None ;;
       invoke callback None (Some userIds))
    (fun error => invoke callback (Some error) (Some [])).

(** The [params] object after the logged assignments. *)
Fixpoint params_after (params : slotted_params) (t : list event) : slotted_params :=
  match t with
  | [] => params
  | AssignUserIds ids :: t' => params_after (SlottedParams (f_tid params) (Some ids)) t'
  | _ :: t' => params_after params t'
  end.

Definition trace {A} (x : X A) : list event := fst x.

Definition notifications (t : list event) : list event :=
  filter (fun ev => match ev with NotifyAutoUnslotted _ _ _ => true | _ => false end) t.

Definition removals (t : list event) : list event :=
  filter (fun ev => match ev with UnattendUser _ _ => true | _ => false end) t.

Definition callbacks (t : list event) : list event :=
  filter (fun ev => match ev with Callback _ _ => true | _ => false end) t.

End Plugin.

(** ** The notions the properties are stated with *)

Module ApiSpec.
Import JS Regex Api.

(** The text [YYYY-MM-DD]: four digits, a hyphen, two digits, a hyphen,
  two digits. *)
Definition is_date_text (d : jsstring) : bool :=
  match d with
  | [y1; y2; y3; y4; h1; m1; m2; h2; d1; d2] =>
      is_digit y1 && is_digit y2 && is_digit y3 && is_digit y4 && (h1 =? 45)%N
      && is_digit m1 && is_digit m2 && (h2 =? 45)%N && is_digit d1 && is_digit d2
  | _ => false
  end.

(** A separator: neither a digit nor a letter of either case. *)
Definition is_separator (c : N) : bool :=
  negb (is_digit c) && negb (is_lower c || is_upper c).

(** The string contains a date immediately followed by a separator. *)
Definition has_date_separator (s : jsstring) : Prop :=
  exists pre d c post,
    s = pre ++ d ++ c :: post /\ is_date_text d = true /\ is_separator c = true.

(** Index 0 and index 2 of a match: the matched text and the time group. *)
Definition date_and_time (r : option match_array)
  : option (jsstring * option jsstring) :=
  option_map (fun a => (whole a, group a 2)) r.



(** A body of the shape [{ message: string }]. *)
Definition is_message_body (body : json) : bool :=
  match body with
  | JObj [(name, JStr _)] => String.eqb name "message"
  | _ => false
  end.

(** A gate admits a request when it calls [next]. *)
Definition admits (g : world -> request -> params -> M outcome)
  (w : world) (req : request) (p : params) : Prop :=
  snd (g w req p) = Next.

Definition is_mutating (v : verb) : bool :=
  match v with
  | POST | PUT | DELETE => true
  | GET | HEAD | OPTIONS | PATCH => false
  end.

(** The gates [init] puts in front of every path below a topic let the
  request through: the topic exists, its category is allowed and, for a
  mutating verb, the caller is logged in and the event lies ahead. *)
Definition gates_pass (w : world) (req : request) : Prop :=
  let p := Params (hd [] (path req)) None in
  admits requireTopic w req p
  /\ admits restrictCategories w req p
  /\ (is_mutating (method req) = true ->
      admits requireLoggedIn w req p /\ admits requireEventInFuture w req p).

(** The handlers a request runs through, with the parameters each one
  sees: the layers of the table whose verb and path match, in order. *)
Fixpoint chain (ls : list layer) (v : verb) (segs : list jsstring)
  : list (handler * params) :=
  match ls with
  | [] => []
  | l :: ls' =>
      if handles_method l v then
        match match_path (parse_pattern (l_path l)) segs (Params [] None) with
        | Some p => (l_handler l, p) :: chain ls' v segs
        | None => chain ls' v segs
        end
      else chain ls' v segs
  end.

Fixpoint run_chain (hs : list (handler * params)) (w : world) (req : request)
  : M outcome :=
  match hs with
  | [] => ret Next
  | (h, p) :: hs' =>
      o <- run_handler h w req p ;;
      match o with
      | Next => run_chain hs' w req
      | _ => ret o
      end
  end.

(** The verbs Express answers on a path: those a route is registered
  for, and HEAD where one is registered for GET. *)
Definition answered (verbs : list verb) (v : verb) : bool :=
  existsb (fun registered => answers_verb registered v) verbs.

(** The gates [init] registers on [/:tid/*], in order: two for every
  verb, three more for POST, PUT and DELETE. *)
Definition gates_in_front (v : verb) : list handler :=
  [H_requireTopic; H_restrictCategories]
  ++ (if is_mutating v
      then [H_requireLoggedIn; H_restrictCategories; H_requireEventInFuture]
      else []).

(** The answer of the first of the handlers that does not call [next];
  [Next] if all of them do. *)
Fixpoint first_answer (hs : list handler) (w : world) (req : request) (p : params)
  : outcome :=
  match hs with
  | [] => Next
  | h :: hs' =>
      match snd (run_handler h w req p) with
      | Next => first_answer hs' w req p
      | o => o
      end
  end.

End ApiSpec.

(** ** Sample worlds and requests *)

Module Samples.
Import JS Api.

Definition db_down : error := Error (str "db down").

(** A forum in which topic 5 is an event, the API key is [secret], no
  category list is configured and nobody but the key holder may edit;
  every date text reads as 2100-01-01 and the clock stands in 2023. *)
Definition forum : world :=
  World (Config (Some (str "secret")) [])
        (fun _ => inr true)
        (fun _ => inr (Some (str "Raid 2024-05-01 Night")))
        (fun _ => inr 1%Z)
        (fun _ _ => inr false)
        (fun _ _ _ => inr false)
        (fun _ => inr JNull)
        (fun _ _ => inr true)
        (fun _ _ => inr true)
        (fun _ => Some 4102444800000%Z)
        1700000000000%Z
        (fun _ _ _ => Respond 200 (JObj [])).

(** The same forum with a topic store and a permission provider that
  report an error. *)
Definition broken_forum : world :=
  World (cfg forum)
        (topicDb_exists forum)
        (topicDb_getTitle forum)
        (topicDb_getCategoryId forum)
        (fun _ _ => inl db_down)
        (shareDb_getFromDb forum)
        (userDb_getGroups forum)
        (fun _ _ => inl db_down)
        (canAttend forum)
        (Date_parse forum)
        (now forum)
        (api_handler forum).

Definition topic5 : params := Params (str "5") None.
Definition match9 : params := Params (str "5") (Some (str "9")).

(** A script holding the API key, a logged-in member, a guest. *)
Definition with_key (v : verb) (segs : list jsstring) : request :=
  Request v segs 0 (Some (str "secret")).

Definition member (v : verb) (segs : list jsstring) : request :=
  Request v segs 7 None.

Definition guest (v : verb) (segs : list jsstring) : request :=
  Request v segs 0 None.

Definition path_match9 : list jsstring := [str "5"; str "match"; str "9"].
Definition path_match : list jsstring := [str "5"; str "match"].
Definition slot_user_path : list jsstring :=
  [str "5"; str "match"; str "9"; str "slot"; str "1"; str "user"].

Import Plugin.

Definition removal_failed : Plugin.error := Plugin.Error (str "removal failed").

(** A user slotted twice in topic 5; nothing throws. *)
Definition slotted_twice : env :=
  Env (fun _ _ => Resolved 2%N) (fun _ _ _ => None) (fun _ => Resolved [3; 4]%Z).

Definition leaving : attendance_change := AttendanceChange 5 3 0.5%float.
Definition attending : attendance_change := AttendanceChange 5 3 1%float.

(** Days from 1970-01-01 to a day of the Gregorian calendar. *)
Definition days_from_civil (y m d : Z) : Z :=
  let y' := if (m <=? 2)%Z then (y - 1)%Z else y in
  let era := (y' / 400)%Z in
  let yoe := (y' - era * 400)%Z in
  let doy := ((153 * (if (2 <? m)%Z then m - 3 else m + 9) + 2) / 5 + d - 1)%Z in
  let doe := (yoe * 365 + yoe / 4 - yoe / 100 + doy)%Z in
  (era * 146097 + doe - 719468)%Z.

Definition digit_pair (a b : N) : Z := (10 * Z.of_N (a - 48) + Z.of_N (b - 48))%Z.

(** A [Date] that reads a text starting with [YYYY-MM-DD] as midnight of
  that day and rejects a month outside 1..12 and a day outside 1..31. *)
Definition calendar_date (text : jsstring) : option Z :=
  match text with
  | y1 :: y2 :: y3 :: y4 :: _ :: m1 :: m2 :: _ :: d1 :: d2 :: _ =>
      let y := (100 * digit_pair y1 y2 + digit_pair y3 y4)%Z in
      let m := digit_pair m1 m2 in
      let d := digit_pair d1 d2 in
      if ApiSpec.is_date_text (firstn 10 text)
         && (1 <=? m)%Z && (m <=? 12)%Z && (1 <=? d)%Z && (d <=? 31)%Z
      then Some (days_from_civil y m d * 86400000)%Z
      else None
  | _ => None
  end.

(** The forum with that [Date]. *)
Definition calendar_forum : world :=
  World (cfg forum) (topicDb_exists forum) (topicDb_getTitle forum)
        (topicDb_getCategoryId forum) (topicDb_isAllowedToEdit forum)
        (shareDb_getFromDb forum) (userDb_getGroups forum)
        (canSee forum) (canAttend forum)
        calendar_date (now forum) (api_handler forum).

End Samples.

(** ** The route table read as an access-control table *)

Module Routes.
Import JS Api.

(** The verb, the path and the gate in front of each API handler, as
  [init] registers them. *)
Definition guard_of (a : api) : verb * string * handler :=
  match a with
  | matchApi_getAll => (GET, "/:tid", H_requireCanSeeAttendance)
  | slottedUsersApi_get => (GET, "/:tid/slotted-user-ids", H_requireCanSeeAttendance)
  | matchApi_post => (POST, "/:tid/match", H_requireAdminOrThreadOwner)
  | matchApi_put => (PUT, "/:tid/match/:matchid", H_requireAdminOrThreadOwner)
  | matchApi_get => (GET, "/:tid/match/:matchid", H_requireCanSeeAttendance)
  | matchApi_del => (DELETE, "/:tid/match/:matchid", H_requireAdminOrThreadOwner)
  | shareApi_getAll => (GET, "/:tid/match/:matchid/share", H_requireAdminOrThreadOwner)
  | shareApi_get => (GET, "/:tid/match/:matchid/share/:shareid", H_requireTopic)
  | shareApi_post => (POST, "/:tid/match/:matchid/share", H_requireAdminOrThreadOwner)
  | shareApi_del => (DELETE, "/:tid/match/:matchid/share", H_requireAdminOrThreadOwner)
  | slotApi_getAll => (GET, "/:tid/match/:matchid/slot", H_requireCanSeeAttendance)
  | userApi_put =>
      (PUT, "/:tid/match/:matchid/slot/:slotid/user", H_requireCanWriteAttendance)
  | userApi_del =>
      (DELETE, "/:tid/match/:matchid/slot/:slotid/user", H_requireCanWriteAttendance)
  | userApi_get =>
      (GET, "/:tid/match/:matchid/slot/:slotid/user", H_requireCanSeeAttendance)
  | reservationApi_put =>
      (PUT, "/:tid/match/:matchid/slot/:slotid/reservation", H_requireAdminOrThreadOwner)
  | reservationApi_del =>
      (DELETE, "/:tid/match/:matchid/slot/:slotid/reservation",
       H_requireAdminOrThreadOwner)
  | reservationApi_get =>
      (GET, "/:tid/match/:matchid/slot/:slotid/reservation", H_requireCanSeeAttendance)
  end%string.

Definition api_eqb (a b : api) : bool :=
  match a, b with
  | matchApi_getAll, matchApi_getAll | matchApi_post, matchApi_post
  | matchApi_put, matchApi_put | matchApi_get, matchApi_get
  | matchApi_del, matchApi_del | slottedUsersApi_get, slottedUsersApi_get
  | shareApi_getAll, shareApi_getAll | shareApi_get, shareApi_get
  | shareApi_post, shareApi_post | shareApi_del, shareApi_del
  | slotApi_getAll, slotApi_getAll | userApi_put, userApi_put
  | userApi_del, userApi_del | userApi_get, userApi_get
  | reservationApi_put, reservationApi_put
  | reservationApi_del, reservationApi_del
  | reservationApi_get, reservationApi_get => true
  | _, _ => false
  end.

Definition handler_eqb (g h : handler) : bool :=
  match g, h with
  | H_requireTopic, H_requireTopic
  | H_restrictCategories, H_restrictCategories
  | H_requireLoggedIn, H_requireLoggedIn
  | H_requireEventInFuture, H_requireEventInFuture
  | H_requireCanSeeAttendance, H_requireCanSeeAttendance
  | H_requireCanWriteAttendance, H_requireCanWriteAttendance
  | H_requireAdminOrThreadOwner, H_requireAdminOrThreadOwner
  | H_isAdminOrThreadOwner, H_isAdminOrThreadOwner
  | H_returnSuccess, H_returnSuccess
  | H_methodNotAllowed, H_methodNotAllowed => true
  | H_api a, H_api b => api_eqb a b
  | _, _ => false
  end.

(** A layer is the registration [methodName(path, h)] for verb [v]. *)
Definition is_layer (v : verb) (s : string) (h : handler) (l : layer) : bool :=
  match l_method l with
  | Some v' => verb_eqb v' v
  | None => false
  end && String.eqb (l_path l) s && handler_eqb (l_handler l) h.

(** Every layer that holds an API handler is registered for the verb and
  path of [guard_of], directly behind the layer of its gate. *)
Fixpoint api_guarded (prev : option layer) (ls : list layer) : bool :=
  match ls with
  | [] => true
  | l :: ls' =>
      match l_handler l with
      | H_api a =>
          let '(v, s, g) := guard_of a in
          is_layer v s (H_api a) l
          && match prev with
             | Some gl => is_layer v s g gl
             | None => false
             end
      | _ => true
      end && api_guarded (Some l) ls'
  end.

(** The dependency calls a handler can make. *)
Definition may_consult (h : handler) (c : call) : bool :=
  match h, c with
  | H_requireTopic, C_exists _ => true
  | H_restrictCategories, C_getCategoryId _ => true
  | H_requireEventInFuture, C_getTitle _ => true
  | H_requireCanSeeAttendance, C_canSee _ _ => true
  | H_requireCanWriteAttendance, (C_shareGetFromDb _ _ _ | C_canAttend _ _) => true
  | H_requireAdminOrThreadOwner, (C_isAllowedToEdit _ _ | C_loggerError _ _) => true
  | H_isAdminOrThreadOwner, (C_isAllowedToEdit _ _ | C_getGroups _) => true
  | H_api a, C_api b => api_eqb a b
  | _, _ => false
  end.

(** The layers [init] registers with [all], [pos], [put] and [del] on
  [/:tid] and [/:tid/*], and the routes behind them. *)
Definition front_gates : list layer := firstn 13 init.
Definition resource_routes : list layer := skipn 13 init.

(** The parameters the gates on [/:tid] and [/:tid/*] see: the first
  path segment as topic id. *)
Definition topic_params (segs : list jsstring) : params := Params (hd [] segs) None.

(** No layer answering verb [v] holds handler [h]. *)
Definition never_runs (h : handler) (v : verb) (ls : list layer) : bool :=
  forallb (fun l => negb (handles_method l v && handler_eqb (l_handler l) h)) ls.

End Routes.

(** ** The rest of plugin.ts *)

Module PluginMeta.
Import JS.

Fixpoint is_prefix (p s : jsstring) : bool :=
  match p, s with
  | [], _ => true
  | x :: p', y :: s' => (x =? y)%N && is_prefix p' s'
  | _ :: _, [] => false
  end.

(** [s.replace(/pat/, rep)] for a pattern that is a literal text: the
  leftmost occurrence is replaced, a string without one is returned as it
  is. *)
Fixpoint replace_first (pat rep s : jsstring) : jsstring :=
  if is_prefix pat s then rep ++ skipn (List.length pat) s
  else match s with
       | [] => []
       | c :: s' => c :: replace_first pat rep s'
       end.

(** [meta.nbbId = meta.id.replace(/nodebb-plugin-/, "")] *)
Definition nbbId (id : jsstring) : jsstring :=
  replace_first (str "nodebb-plugin-") [] id.

(** An entry of [customHeader.plugins]. *)
Record menu_entry : Type := MenuEntry {
  icon : jsstring;
  name : jsstring;
  route : jsstring
}.

(** [plugin.json], as far as the plugin reads it. *)
Record meta : Type := Meta {
  meta_id : jsstring;
  meta_name : jsstring
}.

(** [admin.menu]: the header after the push; it is also what the callback
  receives, with a null error. *)
Definition menu (m : meta) (plugins : list menu_entry) : list menu_entry :=
  plugins ++ [MenuEntry (str "fa-calendar") (meta_name m)
                        (str "/plugins/" ++ nbbId (meta_id m))].

End PluginMeta.

(** ** More sample worlds *)

Module MoreSamples.
Import JS Api Samples.

(** The forum with a [Date] that reads no text at all. *)
Definition dateless_forum : world :=
  World (cfg forum) (topicDb_exists forum) (topicDb_getTitle forum)
        (topicDb_getCategoryId forum) (topicDb_isAllowedToEdit forum)
        (shareDb_getFromDb forum) (userDb_getGroups forum)
        (canSee forum) (canAttend forum)
        (fun _ => None) (now forum) (api_handler forum).

(** The forum without topic 5. *)
Definition empty_forum : world :=
  World (cfg forum) (fun _ => inr false) (topicDb_getTitle forum)
        (topicDb_getCategoryId forum) (topicDb_isAllowedToEdit forum)
        (shareDb_getFromDb forum) (userDb_getGroups forum)
        (canSee forum) (canAttend forum)
        (Date_parse forum) (now forum) (api_handler forum).

(** The forum with the API key set to the empty string and member 7
  allowed to edit. *)
Definition keyless_forum : world :=
  World (setApiKey [] (cfg forum)) (topicDb_exists forum) (topicDb_getTitle forum)
        (topicDb_getCategoryId forum) (fun _ _ => inr true)
        (shareDb_getFromDb forum) (userDb_getGroups forum)
        (canSee forum) (canAttend forum)
        (Date_parse forum) (now forum) (api_handler forum).

(** The forum restricted to categories 1 and 2. *)
Definition restricted_forum : world :=
  World (setAllowedCategories [1; 2]%Z (cfg forum)) (topicDb_exists forum)
        (topicDb_getTitle forum)
        (topicDb_getCategoryId forum) (topicDb_isAllowedToEdit forum)
        (shareDb_getFromDb forum) (userDb_getGroups forum)
        (canSee forum) (canAttend forum)
        (Date_parse forum) (now forum) (api_handler forum).

(** A share token presented by a guest. *)
Definition token_guest (v : verb) (segs : list jsstring) : request :=
  Request v segs 0 (Some (str "token")).

Import Plugin.

Definition sink_down : Plugin.error := Plugin.Error (str "sink down").

(** A user slotted twice while the notification sink throws. *)
Definition silent_sink : env :=
  Env (fun _ _ => Resolved 2%N) (fun _ _ _ => Some sink_down)
      (fun _ => Resolved [3; 4]%Z).

End MoreSamples.

(* ================================================================== *)
(** * Part II: properties *)
(* ================================================================== *)

(** ** The attendance hooks *)

Section PluginFacts.
Import Plugin.

(** Binary64 comparison: a number below another is not at least it. *)
Lemma SFcompare_lt_not_le (x y : SpecFloat.spec_float) :
  SpecFloat.SFltb x y = true -> SpecFloat.SFleb y x = false.
Proof.
  unfold SpecFloat.SFltb, SpecFloat.SFleb.
  destruct x as [s | s | | s mx ex], y as [t | t | | t my ey]; cbn;
    try discriminate; try (destruct s; try destruct t; cbn; congruence).
  change PosDef.Pos.compare_cont with Pos.compare_cont.
  pose proof (Z.compare_antisym ex ey) as Hz.
  pose proof (Pos.compare_cont_antisym mx my Eq) as Hp. cbn in Hp.
  destruct s, t, (ex ?= ey)%Z, (ey ?= ex)%Z,
    (Pos.compare_cont Eq mx my), (Pos.compare_cont Eq my mx);
    cbn in *; congruence.
Qed.

Lemma below_one_not_certain (p : float) :
  (p <? 1)%float = true -> (1 <=? p)%float = false.
Proof.
  rewrite FloatAxioms.ltb_spec, FloatAxioms.leb_spec.
  apply SFcompare_lt_not_le.
Qed.

Variable E : env.
Variable params : attendance_change.
Variable callback : option callback_fn.

(** C1: with a probability of at least 1 the hook does one thing only,
    it calls its callback with a null error: no removal is attempted, no
    notification is sent and no slot state is read. *)
Theorem catchAttendanceChange_certain :
  (1 <=? probability params)%float = true ->
  trace (catchAttendanceChange E params callback) = [Callback None None]
  /\ removals (trace (catchAttendanceChange E params callback)) = []
  /\ notifications (trace (catchAttendanceChange E params callback)) = [].
Proof.
  intros Hp. unfold catchAttendanceChange. rewrite Hp.
  unfold invoke, perform. simpl. repeat split.
Qed.

(** C2: with a probability below 1 the user is removed once; when the
    removal resolves with a count, the notifications sent are exactly the
    single one carrying (topic, user, count) if the count is positive and
    none otherwise, and when the removal fails the callback is called
    exactly once, with that error. *)
Theorem catchAttendanceChange_uncertain :
  (probability params <? 1)%float = true ->
  let t := trace (catchAttendanceChange E params callback) in
  removals t = [UnattendUser (tid params) (uid params)]
  /\ match unattendUser E (tid params) (uid params) with
     | Resolved resultCount =>
         notifications t =
           (if (0 <? resultCount)%N
            then [NotifyAutoUnslotted (tid params) (uid params) resultCount]
            else [])
     | Rejected error =>
         t = [UnattendUser (tid params) (uid params); Callback (Some error) None]
     end.
Proof.
  intros Hp. apply below_one_not_certain in Hp.
  unfold catchAttendanceChange. rewrite Hp.
  set (cb := match callback with Some f => f | None => noop end).
  unfold invoke, perform.
  destruct (unattendUser E (tid params) (uid params)) as [n | e]; simpl.
  - destruct n as [| q]; simpl.
    + destruct (cb None None) as [e |]; simpl; [| split; reflexivity].
      destruct (cb (Some e) None); split; reflexivity.
    + destruct (notifyAutoUnslotted E (tid params) (uid params) (N.pos q)) as [e |];
        simpl.
      * destruct (cb (Some e) None); split; reflexivity.
      * destruct (cb None None) as [e |]; simpl; [| split; reflexivity].
        destruct (cb (Some e) None); split; reflexivity.
  - destruct (cb (Some e) None); split; reflexivity.
Qed.

(** C10: when the repository resolves with the slotted user ids, the hook
  assigns them to [params.userIds] and calls its callback with a null
  error and that list (and hands the callback's own exception, if it
  throws one, back to it); when the repository fails, the callback gets
  the error and an empty list and [params] is left as it was. *)
Theorem filterAttendanceSlotted_outcomes (sp : slotted_params) (cb : callback_fn) :
  let x := filterAttendanceSlotted E sp cb in
  match getSlottedUserIds E (f_tid sp) with
  | Resolved ids =>
      trace x =
        [GetSlottedUserIds (f_tid sp); AssignUserIds ids; Callback None (Some ids)]
        ++ match cb None (Some ids) with
           | Some thrown => [Callback (Some thrown) (Some [])]
           | None => []
           end
      /\ userIds (params_after sp (trace x)) = Some ids
  | Rejected error =>
      trace x = [GetSlottedUserIds (f_tid sp); Callback (Some error) (Some [])]
      /\ params_after sp (trace x) = sp
  end.
Proof.
  unfold filterAttendanceSlotted, invoke, perform.
  destruct (getSlottedUserIds E (f_tid sp)) as [ids | e]; simpl.
  - destruct (cb None (Some ids)) as [thrown |]; simpl.
    + destruct (cb (Some thrown) (Some [])); split; reflexivity.
    + split; reflexivity.
  - destruct (cb (Some e) (Some [])); split; reflexivity.
Qed.

End PluginFacts.

Lemma catchAttendanceChange_certain_witness :
  (1 <=? Plugin.probability Samples.attending)%float = true
  /\ Plugin.trace (Plugin.catchAttendanceChange Samples.slotted_twice
                     Samples.attending None)
     = [Plugin.Callback None None].
Proof.
  split; [reflexivity |].
  apply (@catchAttendanceChange_certain Samples.slotted_twice Samples.attending None).
  reflexivity.
Defined.

Lemma catchAttendanceChange_uncertain_witness :
  (Plugin.probability Samples.leaving <? 1)%float = true
  /\ Plugin.notifications
       (Plugin.trace (Plugin.catchAttendanceChange Samples.slotted_twice
                        Samples.leaving None))
     = [Plugin.NotifyAutoUnslotted 5 3 2].
Proof.
  split; [reflexivity |].
  apply (@catchAttendanceChange_uncertain Samples.slotted_twice Samples.leaving None).
  reflexivity.
Defined.

(** ** The matcher against the words of a regular expression *)

Section RegexFacts.
Import JS Regex.

Variable icase : bool.

Lemma m_rep_S (R : Type) n a st (k : mstate -> option R) :
  m icase (Rep (S n) a) st k = m icase a st (fun st' => m icase (Rep n a) st' k).
Proof. reflexivity. Qed.

Lemma step_some (R : Type) p st (k : mstate -> option R) x :
  step p st k = Some x ->
  exists c st', p c = true /\ rest st = [c] ++ rest st'
                /\ seen st' = rev [c] ++ seen st /\ k st' = Some x.
Proof.
  unfold step. destruct (rest st) as [| c r] eqn:Hr; [discriminate |].
  destruct (p c) eqn:Hp; [| discriminate].
  intros Hk. exists c, (MState r (c :: seen st) (caps st)). auto.
Qed.

(** Whatever the matcher accepts is a word of the expression, read off the
  front of the input. *)
Lemma m_sound (R : Type) r :
  forall st (k : mstate -> option R) x,
    m icase r st k = Some x ->
    exists w st', lang icase r w /\ rest st = w ++ rest st'
                  /\ seen st' = rev w ++ seen st /\ k st' = Some x.
Proof.
  induction r as [c | neg rs | a IHa b IHb | n a IHa | a IHa | i a IHa];
    intros st k x H.
  - apply step_some in H. destruct H as (ch & st' & Hp & Hr & Hs & Hk).
    exists [ch], st'. repeat split; auto. now constructor.
  - apply step_some in H. destruct H as (ch & st' & Hp & Hr & Hs & Hk).
    exists [ch], st'. repeat split; auto. now constructor.
  - simpl in H. apply IHa in H. destruct H as (u & st1 & Lu & Hr1 & Hs1 & H).
    apply IHb in H. destruct H as (v & st2 & Lv & Hr2 & Hs2 & H).
    exists (u ++ v), st2. repeat split; auto.
    + now constructor.
    + rewrite Hr1, Hr2. now rewrite app_assoc.
    + rewrite Hs2, Hs1, rev_app_distr. now rewrite app_assoc.
  - revert st k x H. induction n as [| n IHn]; intros st k x H.
    + exists [], st. repeat split; auto. constructor.
    + rewrite m_rep_S in H. apply IHa in H.
      destruct H as (u & st1 & Lu & Hr1 & Hs1 & H).
      apply IHn in H. destruct H as (v & st2 & Lv & Hr2 & Hs2 & H).
      exists (u ++ v), st2. repeat split; auto.
      * now constructor.
      * rewrite Hr1, Hr2. now rewrite app_assoc.
      * rewrite Hs2, Hs1, rev_app_distr. now rewrite app_assoc.
  - simpl in H. destruct (m icase a st k) as [y |] eqn:Ha.
    + inversion H; subst y. apply IHa in Ha.
      destruct Ha as (u & st1 & Lu & Hr1 & Hs1 & Hk).
      exists u, st1. repeat split; auto. now apply L_OptSome.
    + exists [], st. repeat split; auto. apply L_OptNone.
  - simpl in H. apply IHa in H. destruct H as (u & st1 & Lu & Hr1 & Hs1 & H).
    exists u, (capture i st st1). repeat split; auto. now constructor.
Qed.

(** A word of the expression at the front of the input, behind which the
  continuation succeeds, makes the matcher succeed. *)
Lemma m_complete (R : Type) r w :
  lang icase r w ->
  forall st tl (k : mstate -> option R),
    rest st = w ++ tl ->
    (forall st', rest st' = tl -> seen st' = rev w ++ seen st -> k st' <> None) ->
    m icase r st k <> None.
Proof.
  induction 1 as [c x Hp | neg rs x Hp | a b u v _ IHa _ IHb | a
                  | n a u v _ IHa _ IHn | a | a u _ IHa | i a u _ IHa];
    intros st tl k Hr Hk.
  - simpl. unfold step. rewrite Hr. simpl. rewrite Hp. apply Hk; reflexivity.
  - simpl. unfold step. rewrite Hr. simpl. rewrite Hp. apply Hk; reflexivity.
  - simpl. apply (IHa st (v ++ tl)).
    + now rewrite Hr, app_assoc.
    + intros st1 Hr1 Hs1. apply (IHb st1 tl); auto.
      intros st2 Hr2 Hs2. apply Hk; auto.
      now rewrite Hs2, Hs1, rev_app_distr, app_assoc.
  - simpl. apply Hk; auto.
  - rewrite m_rep_S. apply (IHa st (v ++ tl)).
    + now rewrite Hr, app_assoc.
    + intros st1 Hr1 Hs1. apply (IHn st1 tl); auto.
      intros st2 Hr2 Hs2. apply Hk; auto.
      now rewrite Hs2, Hs1, rev_app_distr, app_assoc.
  - simpl. destruct (m icase a st k); [discriminate |]. apply Hk; auto.
  - simpl. destruct (m icase a st k) eqn:Ha; [discriminate |].
    exfalso. revert Ha. apply (IHa st tl); auto.
  - simpl. apply (IHa st tl); auto.
Qed.

(** [search] finds a match exactly when some substring is a word of the
  expression, and the match it returns is such a substring. *)
Lemma search_some r s st :
  search icase r s = Some st ->
  exists pre post, s = pre ++ rev (seen st) ++ post /\ lang icase r (rev (seen st)).
Proof.
  revert st. induction s as [| c s IH]; intros st; simpl.
  - destruct (m icase r (init []) (@Some mstate)) as [st0 |] eqn:Hm; [| discriminate].
    intros E; inversion E; subst st0. apply m_sound in Hm.
    destruct Hm as (w & st' & Lw & Hr & Hs & Hk). inversion Hk; subst st'.
    simpl in Hr, Hs. rewrite app_nil_r in Hs. rewrite Hs, rev_involutive.
    exists [], (rest st). auto.
  - destruct (m icase r (init (c :: s)) (@Some mstate)) as [st0 |] eqn:Hm.
    + intros E; inversion E; subst st0. apply m_sound in Hm.
      destruct Hm as (w & st' & Lw & Hr & Hs & Hk). inversion Hk; subst st'.
      simpl in Hr, Hs. rewrite app_nil_r in Hs. rewrite Hs, rev_involutive.
      exists [], (rest st). auto.
    + intros Hs. apply IH in Hs. destruct Hs as (pre & post & E & L).
      exists (c :: pre), post. split; auto. simpl. now rewrite E at 1.
Qed.

Lemma search_complete r pre w post :
  lang icase r w -> search icase r (pre ++ w ++ post) <> None.
Proof.
  intros L. induction pre as [| c pre IH].
  - assert (Hm : m icase r (init (w ++ post)) (@Some mstate) <> None).
    { apply m_complete with (w := w) (tl := post); auto. discriminate. }
    simpl. destruct (w ++ post); simpl;
      destruct (m icase r _ (@Some mstate)); congruence.
  - simpl. destruct (m icase r _ (@Some mstate)); [discriminate | exact IH].
Qed.

End RegexFacts.

(** ** Event titles *)

Section TitleFacts.
Import JS Regex Api ApiSpec.

Ltac nbool :=
  unfold in_class, in_range, same_char, to_upper, to_lower, is_separator,
    is_digit, is_lower, is_upper, between in *;
  cbn [andb orb negb xorb existsb fst snd] in *;
  repeat match goal with
         | |- context [if (?a <=? ?b)%N && _ then _ else _] =>
             destruct (N.leb_spec a b); cbn [andb orb negb xorb]
         | |- context [if (?a <=? ?b)%N then _ else _] =>
             destruct (N.leb_spec a b); cbn [andb orb negb xorb]
         end;
  repeat match goal with
         | |- context [(?a <=? ?b)%N] => destruct (N.leb_spec a b)
         | |- context [(?a =? ?b)%N] => destruct (N.eqb_spec a b)
         end; cbn [andb orb negb xorb]; try reflexivity; try lia.

Lemma class_digit x : in_class true false [(48, 57)%N] x = is_digit x.
Proof. nbool. Qed.

Lemma class_not_alnum x :
  in_class true true [(48, 57)%N; (97, 122)%N] x = is_separator x.
Proof. nbool. Qed.

Lemma class_hyphen x : same_char true 45 x = (x =? 45)%N.
Proof. nbool. Qed.

Ltac inv_lang :=
  repeat match goal with
         | H : lang _ (Seq _ _) _ |- _ => inversion H; clear H; subst
         | H : lang _ (Grp _ _) _ |- _ => inversion H; clear H; subst
         | H : lang _ (Rep _ _) _ |- _ => inversion H; clear H; subst
         | H : lang _ (Chr _) _ |- _ => inversion H; clear H; subst
         | H : lang _ (Cls _ _) _ |- _ => inversion H; clear H; subst
         | H : lang _ (Opt _) _ |- _ => inversion H; clear H; subst
         end.

Lemma lang_date w : lang true re_date w <-> is_date_text w = true.
Proof.
  split.
  - unfold re_date, digit. intros H. inv_lang.
    repeat match goal with
           | H : in_class _ _ _ _ = true |- _ => rewrite class_digit in H
           | H : same_char _ _ _ = true |- _ => rewrite class_hyphen in H
           end.
    cbn [app is_date_text].
    repeat match goal with H : _ = true |- _ => rewrite H; clear H end.
    reflexivity.
  - do 11 (destruct w as [| ? w]; try discriminate).
    cbn [is_date_text]. rewrite !andb_true_iff.
    intros [[[[[[[[[H1 H2] H3] H4] H5] H6] H7] H8] H9] H10].
    match goal with
    | |- lang _ _ [?a; ?b; ?c; ?d; ?e; ?f; ?g; ?h; ?i; ?j] =>
        change (lang true re_date
                  (([a] ++ [b] ++ [c] ++ [d] ++ []) ++ [e]
                     ++ ([f] ++ [g] ++ []) ++ [h] ++ ([i] ++ [j] ++ [])))
    end.
    unfold re_date, digit.
    repeat constructor;
      rewrite ?class_digit, ?class_hyphen; assumption.
Qed.

Lemma lang_seq_inv ic a b w :
  lang ic (Seq a b) w -> exists u v, w = u ++ v /\ lang ic a u /\ lang ic b v.
Proof. intros H. inversion H; subst. eauto. Qed.

Lemma lang_grp_inv ic i a w : lang ic (Grp i a) w -> lang ic a w.
Proof. intros H. now inversion H. Qed.

Lemma lang_cls_inv ic neg rs w :
  lang ic (Cls neg rs) w -> exists x, w = [x] /\ in_class ic neg rs x = true.
Proof. intros H. inversion H; subst. eauto. Qed.

Lemma lang_chr_inv ic c w :
  lang ic (Chr c) w -> exists x, w = [x] /\ same_char ic c x = true.
Proof. intros H. inversion H; subst. eauto. Qed.

Lemma lang_opt_inv ic a w : lang ic (Opt a) w -> w = [] \/ lang ic a w.
Proof. intros H. inversion H; subst; auto. Qed.

Lemma lang_topicIsEvent w :
  lang true re_topicIsEvent w <->
  exists d c, w = d ++ [c] /\ is_date_text d = true /\ is_separator c = true.
Proof.
  unfold re_topicIsEvent, not_alnum. split.
  - intros H. apply lang_seq_inv in H. destruct H as (d & v & -> & Hd & Hv).
    apply lang_grp_inv, lang_cls_inv in Hv. destruct Hv as (c & -> & Hc).
    rewrite class_not_alnum in Hc. apply lang_date in Hd. eauto.
  - intros (d & c & -> & Hd & Hc). constructor.
    + now apply lang_date.
    + do 2 constructor. now rewrite class_not_alnum.
Qed.

Lemma class_space x : same_char true 32 x = (x =? 32)%N.
Proof. nbool. Qed.

Lemma lang_event_seconds w :
  lang true re_topicIsEvent w -> lang true re_secondsToEvent w.
Proof.
  intros H. apply lang_topicIsEvent in H. destruct H as (d & c & -> & Hd & Hc).
  unfold re_secondsToEvent. constructor; [now apply lang_date |].
  change [c] with ([] ++ [c]). constructor; [apply L_OptNone |].
  unfold not_alnum. constructor. now rewrite class_not_alnum.
Qed.

Lemma lang_seconds_event w :
  lang true re_secondsToEvent w ->
  exists w' tl, w = w' ++ tl /\ lang true re_topicIsEvent w'.
Proof.
  unfold re_secondsToEvent. intros H.
  apply lang_seq_inv in H. destruct H as (d & v & -> & Hd & Hv).
  apply lang_seq_inv in Hv. destruct Hv as (o & s & -> & Ho & Hs).
  apply lang_cls_inv in Hs. destruct Hs as (c & -> & Hc).
  rewrite class_not_alnum in Hc. apply lang_date in Hd.
  apply lang_opt_inv in Ho. destruct Ho as [-> | Ho].
  - exists (d ++ [c]), []. rewrite app_nil_r. split; [reflexivity |].
    apply lang_topicIsEvent. eauto.
  - apply lang_grp_inv, lang_seq_inv in Ho. destruct Ho as (sp & t & -> & Hsp & Ht).
    apply lang_chr_inv in Hsp. destruct Hsp as (x & -> & Hx).
    rewrite class_space in Hx. apply N.eqb_eq in Hx. subst x.
    exists (d ++ [32%N]), (t ++ [c]). split.
    + now rewrite <- !app_assoc.
    + apply lang_topicIsEvent. exists d, 32%N. auto.
Qed.

Lemma lang_seconds_nonempty w : lang true re_secondsToEvent w -> w <> [].
Proof.
  intros H. apply lang_seconds_event in H. destruct H as (w' & tl & -> & H).
  apply lang_topicIsEvent in H. destruct H as (d & c & -> & _).
  destruct d; discriminate.
Qed.

Lemma search_event_iff s :
  search true re_topicIsEvent s = None <-> search true re_secondsToEvent s = None.
Proof.
  split; intros H.
  - destruct (search true re_secondsToEvent s) as [st |] eqn:Hs; [| reflexivity].
    apply search_some in Hs. destruct Hs as (pre & post & E & L).
    apply lang_seconds_event in L. destruct L as (w' & tl & Ew & L).
    exfalso. revert H. rewrite E, Ew, <- app_assoc. now apply search_complete.
  - destruct (search true re_topicIsEvent s) as [st |] eqn:Hs; [| reflexivity].
    apply search_some in Hs. destruct Hs as (pre & post & E & L).
    apply lang_event_seconds in L.
    exfalso. revert H. rewrite E. now apply search_complete.
Qed.

(** C3: a title is classified as an event exactly when its trimmed text
  contains [YYYY-MM-DD] immediately followed by a character that is
  neither a digit nor a letter of either case. *)
Theorem topicIsEvent_iff_date_separator (title : jsstring) :
  truthy_match (topicIsEvent title) = true <-> has_date_separator (trim title).
Proof.
  unfold topicIsEvent, exec, has_date_separator. split.
  - destruct (search true re_topicIsEvent (trim title)) as [st |] eqn:Hs;
      [intros _ | discriminate].
    apply search_some in Hs. destruct Hs as (pre & post & E & L).
    apply lang_topicIsEvent in L. destruct L as (d & c & Ew & Hd & Hc).
    exists pre, d, c, post. rewrite E, Ew, <- app_assoc. auto.
  - intros (pre & d & c & post & E & Hd & Hc).
    assert (L : lang true re_topicIsEvent (d ++ [c])).
    { apply lang_topicIsEvent. eauto. }
    apply (search_complete pre post) in L.
    replace (pre ++ (d ++ [c]) ++ post) with (trim title) in L
      by (now rewrite E, <- app_assoc).
    destruct (search true re_topicIsEvent (trim title)); [reflexivity | congruence].
Qed.

Lemma nan_countdown (x : float) : ((nan - x) / 1000)%float = nan.
Proof.
  apply Prim2SF_inj. rewrite FloatAxioms.div_spec, FloatAxioms.sub_spec.
  replace (Prim2SF nan) with SpecFloat.S754_nan by reflexivity.
  reflexivity.
Qed.

(** C5, as the code has it: for a title that is no event the result is
  the sentinel -1. For an event title the leftmost match in the trimmed
  title gives a text and possibly a time group; the result is then
  (t - now) / 1000 if [Date] reads the text as t and there is a time
  group, (t + 86400000 - now) / 1000 if there is none (NaN if that is no
  time value any more), and NaN, not -1, if [Date] cannot read the
  text. *)
Theorem secondsToEvent_result (w : world) (title : jsstring) :
  match topicIsEvent title with
  | None => secondsToEvent w title = (-1)%float
  | Some _ =>
      exists text time pre post,
        date_and_time (exec true re_secondsToEvent (trim title)) = Some (text, time)
        /\ trim title = pre ++ text ++ post
        /\ secondsToEvent w title =
             match Date_parse w text with
             | None => nan
             | Some t =>
                 if truthy_group time
                 then ((number_of_Z t - number_of_Z (now w)) / 1000)%float
                 else if (Z.abs (t + 86400000) <=? 8640000000000000)%Z
                      then ((number_of_Z (t + 86400000) - number_of_Z (now w))
                            / 1000)%float
                      else nan
             end
  end.
Proof.
  unfold topicIsEvent, secondsToEvent, exec, date_and_time.
  pose proof (search_event_iff (trim title)) as Hiff.
  destruct (search true re_topicIsEvent (trim title)) as [st1 |] eqn:H1;
    cbn [option_map].
  - destruct (search true re_secondsToEvent (trim title)) as [st2 |] eqn:H2.
    + cbn [option_map]. apply search_some in H2. destruct H2 as (pre & post & E & L).
      exists (whole (to_array st2)), (group (to_array st2) 2), pre, post.
      split; [reflexivity |]. split; [exact E |].
      apply lang_seconds_nonempty in L. cbn [to_array whole] in *.
      destruct (rev (seen st2)) as [| c0 r0] eqn:Er; [congruence |].
      cbn [truthy_str negb]. unfold eventDate. cbn [to_array whole group].
      rewrite Er.
      destruct (Date_parse w (c0 :: r0)) as [t |];
        destruct (truthy_group (capture_of 2 (caps st2)));
        cbn [negb add_day getTime]; try apply nan_countdown; try reflexivity.
      unfold TimeClip. change (86400 * 1000)%Z with 86400000%Z.
      destruct (Z.abs (t + 86400000) <=? 8640000000000000)%Z;
        cbn [getTime]; [reflexivity | apply nan_countdown].
    + destruct Hiff as [_ Hiff]. now specialize (Hiff eq_refl).
  - destruct Hiff as [Hiff _]. now rewrite (Hiff eq_refl).
Qed.

(** C5 fails for an event title whose date [Date] cannot read: the result
  is NaN, not the sentinel. *)
Lemma unreadable_date_is_not_the_sentinel :
  truthy_match (topicIsEvent (str "Raid 2024-13-45 Night")) = true
  /\ Date_parse Samples.calendar_forum (str "2024-13-45 ") = None
  /\ secondsToEvent Samples.calendar_forum (str "Raid 2024-13-45 Night") = nan
  /\ secondsToEvent Samples.calendar_forum (str "Raid 2024-13-45 Night") <> (-1)%float.
Proof.
  repeat split; try (vm_compute; reflexivity).
  intros H. apply (f_equal PrimFloat.is_nan) in H. vm_compute in H. discriminate H.
Qed.

Example readable_date :
  Date_parse Samples.calendar_forum (str "2024-05-01 ") = Some 1714521600000%Z.
Proof. reflexivity. Qed.

Lemma secondsToEvent_of_match (w : world) title text time :
  date_and_time (exec true re_secondsToEvent (trim title)) = Some (text, time) ->
  truthy_str text = true ->
  secondsToEvent w title =
    ((getTime (if negb (truthy_group time)
               then add_day (Date_parse w text) else Date_parse w text)
      - number_of_Z (now w)) / 1000)%float.
Proof.
  unfold secondsToEvent, eventDate, date_and_time.
  destruct (exec true re_secondsToEvent (trim title)) as [dp |]; [| discriminate].
  cbn [option_map]. intros E Ht. inversion E; subst text time.
  now rewrite Ht.
Qed.

(** C4, the code at a failing input: in [Raid 2024-05-01 18:00] the time
  group does not take part in the match, the text handed to [Date] is the
  date and the blank behind it, a day is added, and the result is the one
  of the same title without a time. *)
Theorem secondsToEvent_drops_time (w : world) :
  date_and_time (exec true re_secondsToEvent (trim (str "Raid 2024-05-01 18:00")))
    = Some (str "2024-05-01 ", None)
  /\ secondsToEvent w (str "Raid 2024-05-01 18:00") =
       ((getTime (add_day (Date_parse w (str "2024-05-01 ")))
         - number_of_Z (now w)) / 1000)%float
  /\ secondsToEvent w (str "Raid 2024-05-01 18:00") =
       secondsToEvent w (str "Raid 2024-05-01 Night").
Proof.
  assert (H1 : date_and_time
                 (exec true re_secondsToEvent (trim (str "Raid 2024-05-01 18:00")))
               = Some (str "2024-05-01 ", None)) by (vm_compute; reflexivity).
  assert (H2 : date_and_time
                 (exec true re_secondsToEvent (trim (str "Raid 2024-05-01 Night")))
               = Some (str "2024-05-01 ", None)) by (vm_compute; reflexivity).
  split; [exact H1 |].
  rewrite (@secondsToEvent_of_match w _ _ _ H1 eq_refl).
  rewrite (@secondsToEvent_of_match w _ _ _ H2 eq_refl).
  split; reflexivity.
Qed.

(** Without a time group the start is the parsed text plus a day. *)
Lemma secondsToEvent_bare_date (w : world) title text :
  date_and_time (exec true re_secondsToEvent (trim title)) = Some (text, None) ->
  truthy_str text = true ->
  secondsToEvent w title =
    ((getTime (add_day (Date_parse w text)) - number_of_Z (now w)) / 1000)%float.
Proof. intros H Ht. now rewrite (@secondsToEvent_of_match w _ _ _ H Ht). Qed.

(** X18: whatever the title, the text handed to [Date] is the date followed by
  a separator, or by a blank, one more character and a separator: never
  more than thirteen code units, so never hours and minutes. *)
Lemma matched_text_shape (title : jsstring) (dateParts : match_array) :
  exec true re_secondsToEvent (trim title) = Some dateParts ->
  exists d c,
    is_date_text d = true /\ is_separator c = true
    /\ (whole dateParts = d ++ [c]
        \/ exists t, whole dateParts = d ++ [32%N; t; c]).
Proof.
  unfold exec.
  destruct (search true re_secondsToEvent (trim title)) as [st |] eqn:Hs;
    [| discriminate].
  intros E. inversion E; subst dateParts. cbn [to_array whole].
  apply search_some in Hs. destruct Hs as (_ & _ & _ & L).
  unfold re_secondsToEvent in L.
  apply lang_seq_inv in L. destruct L as (d & v & -> & Hd & Hv).
  apply lang_seq_inv in Hv. destruct Hv as (o & s & -> & Ho & Hc).
  apply lang_cls_inv in Hc. destruct Hc as (c & -> & Hc).
  rewrite class_not_alnum in Hc. apply lang_date in Hd.
  exists d, c. repeat split; auto.
  apply lang_opt_inv in Ho. destruct Ho as [-> | Ho]; [now left |].
  apply lang_grp_inv, lang_seq_inv in Ho. destruct Ho as (sp & t & -> & Hsp & Ht).
  apply lang_chr_inv in Hsp. destruct Hsp as (x & -> & Hx).
  rewrite class_space in Hx. apply N.eqb_eq in Hx. subst x.
  apply lang_cls_inv in Ht. destruct Ht as (y & -> & _).
  right. exists y. reflexivity.
Qed.

Example event_title : truthy_match (topicIsEvent (str "Raid 2024-05-01 Night")) = true.
Proof. reflexivity. Qed.

Example date_at_the_end : topicIsEvent (str "Raid 2024-05-01 ") = None.
Proof. reflexivity. Qed.

Example date_before_a_letter : topicIsEvent (str "Raid 2024-05-01T18:00") = None.
Proof. reflexivity. Qed.

Example single_digit_hour :
  date_and_time (exec true re_secondsToEvent (trim (str "Raid 2024-05-01 8:30")))
  = Some (str "2024-05-01 8:", Some (str " 8")).
Proof. reflexivity. Qed.

Example blanks_taken_for_a_time :
  date_and_time (exec true re_secondsToEvent (trim (str "Raid 2024-05-01   Night")))
  = Some (str "2024-05-01   ", Some (str "  ")).
Proof. reflexivity. Qed.

End TitleFacts.

(** ** The gates *)

Section GateFacts.
Import JS Api ApiSpec Samples.

Lemma eqb_str_eq (a b : jsstring) : eqb_str a b = true <-> a = b.
Proof.
  revert b. induction a as [| x a IH]; intros [| y b]; simpl;
    try (split; [discriminate | congruence]); [tauto |].
  rewrite andb_true_iff, N.eqb_eq, IH. split.
  - now intros [-> ->].
  - intros E. inversion E. auto.
Qed.

Lemma presents_api_key_header w req :
  presents_api_key w req = true ->
  exists key, x_api_key req = Some key /\ apiKey (cfg w) = Some key
              /\ truthy_str key = true.
Proof.
  unfold presents_api_key.
  destruct (apiKey (cfg w)) as [k |]; [| discriminate].
  destruct (x_api_key req) as [h |]; [| discriminate].
  rewrite andb_true_iff, eqb_str_eq. intros [Hk ->]. eauto.
Qed.

(** C6, as the code has it: a request presenting the configured API key
  passes [requireLoggedIn] and [requireAdminOrThreadOwner] without any
  dependency being consulted, whoever sends it; [requireCanWriteAttendance]
  reads the same header as a share token, looks it up for the topic and
  match, and admits the request exactly when the lookup finds it. *)
Theorem api_key_bypass (w : world) (req : request) (p : params) :
  presents_api_key w req = true ->
  requireLoggedIn w req p = ([], Next)
  /\ requireAdminOrThreadOwner w req p = ([], Next)
  /\ exists key,
       x_api_key req = Some key
       /\ requireCanWriteAttendance w req p =
            ([C_shareGetFromDb (tid p) (matchid p) key],
             match shareDb_getFromDb w (tid p) (matchid p) key with
             | inr true => Next
             | _ => Respond 403 (msg "Invalid share id")
             end).
Proof.
  intros H. unfold requireLoggedIn, requireAdminOrThreadOwner. rewrite H.
  repeat split.
  apply presents_api_key_header in H. destruct H as (key & Hh & _ & Hk).
  exists key. split; [assumption |].
  unfold requireCanWriteAttendance. rewrite Hh.
  destruct key as [| c k]; [discriminate |].
  unfold bind, ask, ret.
  destruct (shareDb_getFromDb w (tid p) (matchid p) (c :: k)) as [e | []];
    reflexivity.
Qed.

(** C6 fails for [requireCanWriteAttendance]: the holder of the API key
  is turned away with 403 when the key is no share token of the match. *)
Lemma api_key_is_no_share_token :
  presents_api_key forum (with_key PUT slot_user_path) = true
  /\ requireCanWriteAttendance forum (with_key PUT slot_user_path) match9 =
       ([C_shareGetFromDb (str "5") (Some (str "9")) (str "secret")],
        Respond 403 (msg "Invalid share id")).
Proof. split; reflexivity. Qed.

Lemma api_key_bypass_witness :
  presents_api_key forum (with_key PUT slot_user_path) = true
  /\ requireLoggedIn forum (with_key PUT slot_user_path) match9 = ([], Next)
  /\ requireAdminOrThreadOwner forum (with_key PUT slot_user_path) match9 = ([], Next)
  /\ exists key,
       x_api_key (with_key PUT slot_user_path) = Some key
       /\ requireCanWriteAttendance forum (with_key PUT slot_user_path) match9 =
            ([C_shareGetFromDb (tid match9) (matchid match9) key],
             match shareDb_getFromDb forum (tid match9) (matchid match9) key with
             | inr true => Next
             | _ => Respond 403 (msg "Invalid share id")
             end).
Proof.
  split; [reflexivity |].
  apply (@api_key_bypass forum (with_key PUT slot_user_path) match9).
  reflexivity.
Defined.






(** *** The router *)

Lemma dispatch_chain ls w req :
  dispatch ls w req = run_chain (chain ls (method req) (path req)) w req.
Proof.
  induction ls as [| l ls IH]; [reflexivity |]. simpl.
  destruct (handles_method l (method req)); [| exact IH].
  destruct (match_path (parse_pattern (l_path l)) (path req) (Params [] None));
    [| exact IH].
  simpl. unfold bind. destruct (run_handler (l_handler l) w req p) as [t o].
  destruct o; rewrite ?IH; reflexivity.
Qed.

Lemma run_chain_next h p hs w req :
  snd (run_handler h w req p) = Next ->
  snd (run_chain ((h, p) :: hs) w req) = snd (run_chain hs w req).
Proof.
  simpl. unfold bind. destruct (run_handler h w req p) as [t o]. simpl.
  intros ->. destruct (run_chain hs w req). reflexivity.
Qed.

Lemma run_chain_405 p hs w req :
  snd (run_chain ((H_methodNotAllowed, p) :: hs) w req)
  = Respond 405 (msg "Method not allowed").
Proof. reflexivity. Qed.

Lemma match_path_param n pat segs p q :
  match_path (Param n :: pat) segs p = Some q ->
  exists x segs', segs = x :: segs' /\ match_path pat segs' (set_param n x p) = Some q.
Proof. destruct segs as [| x segs']; [discriminate | eauto]. Qed.

Lemma match_path_lit s pat segs p q :
  match_path (Lit s :: pat) segs p = Some q ->
  exists segs', segs = s :: segs' /\ match_path pat segs' p = Some q.
Proof.
  destruct segs as [| x segs']; [discriminate |]. simpl.
  destruct (eqb_str s x) eqn:E; [| discriminate].
  apply eqb_str_eq in E. subst x. eauto.
Qed.

Lemma match_path_nil segs p q : match_path [] segs p = Some q -> segs = [].
Proof. destruct segs; [reflexivity | discriminate]. Qed.

Ltac path_shape :=
  repeat match goal with
         | H : match_path (Param _ :: _) _ _ = Some _ |- _ =>
             apply match_path_param in H; destruct H as (? & ? & -> & H)
         | H : match_path (Lit _ :: _) _ _ = Some _ |- _ =>
             apply match_path_lit in H; destruct H as (? & -> & H)
         | H : match_path [] _ _ = Some _ |- _ =>
             apply match_path_nil in H; subst
         end.

Lemma run_chain_first_answer w req hs p0 p' :
  snd (run_chain (map (fun h => (h, p0)) hs ++ [(H_methodNotAllowed, p')]) w req)
  = match first_answer hs w req p0 with
    | Next => Respond 405 (msg "Method not allowed")
    | stopped => stopped
    end.
Proof.
  induction hs as [| h hs IH]; [reflexivity |].
  cbn [map app run_chain first_answer]. unfold bind.
  destruct (run_handler h w req p0) as [t o]. cbn [snd].
  destruct o; cbn [ret snd]; [| reflexivity | reflexivity].
  rewrite <- IH.
  now destruct (run_chain (map (fun h0 => (h0, p0)) hs ++ [(H_methodNotAllowed, p')])
                  w req).
Qed.

Lemma gates_pass_first_answer w req :
  gates_pass w req ->
  first_answer (gates_in_front (method req)) w req (Params (hd [] (path req)) None)
  = Next.
Proof.
  unfold gates_pass, admits, gates_in_front. intros (Ht & Hc & Hm).
  destruct (is_mutating (method req)); cbn [app first_answer run_handler];
    rewrite Ht, Hc; [| reflexivity].
  destruct (Hm eq_refl) as [Hl He]. cbn iota. rewrite Hl. cbn iota. now rewrite He.
Qed.

(** C8, as the code has it: on the six paths for which [init] registers
  the [methodNotAllowed] catch-all, a request with a verb that Express
  answers with none of the path's routes (a verb the surface does not
  list for the path, HEAD excepted where GET is listed) gets the answer
  of the first gate in front of the path that stops it, and 405 if none
  does; so it gets 405 once it has passed those gates. *)
Theorem unlisted_verb_405 (w : world) (req : request)
  (pat : string) (verbs : list verb) (p : params) :
  In pat guarded_paths ->
  In (pat, verbs) surface ->
  answered verbs (method req) = false ->
  match_path (parse_pattern pat) (path req) (Params [] None) = Some p ->
  snd (router w req)
  = match first_answer (gates_in_front (method req)) w req
            (Params (hd [] (path req)) None) with
    | Next => Respond 405 (msg "Method not allowed")
    | stopped => stopped
    end
  /\ (gates_pass w req ->
      snd (router w req) = Respond 405 (msg "Method not allowed")).
Proof.
  intros Hg Hs Hv Hp.
  assert (R : snd (router w req)
              = match first_answer (gates_in_front (method req)) w req
                        (Params (hd [] (path req)) None) with
                | Next => Respond 405 (msg "Method not allowed")
                | stopped => stopped
                end).
  2:{ split; [exact R |]. intros G. rewrite R.
      now rewrite (gates_pass_first_answer G). }
  unfold router. rewrite dispatch_chain.
  destruct req as [v segs u key]. cbn [method path] in *.
  unfold guarded_paths in Hg. cbn [In] in Hg.
  repeat (destruct Hg as [<- | Hg]); [.. | contradiction];
    unfold surface in Hs; cbn [In] in Hs;
    repeat (destruct Hs as [Hs | Hs]; [try discriminate Hs |]);
    try contradiction;
    inversion Hs; subst verbs; clear Hs;
    match type of Hp with
    | context [parse_pattern ?s] =>
        let c := eval vm_compute in (parse_pattern s) in
        change (parse_pattern s) with c in Hp
    end;
    path_shape; cbn [hd];
    destruct v; try discriminate Hv;
    match goal with
    | |- snd (run_chain ?c _ _) = _ =>
        let c' := eval vm_compute in c in
        let Ec := fresh "Ec" in
        assert (Ec : c = c') by (vm_compute; reflexivity);
        rewrite Ec; clear Ec
    end;
    match goal with
    | |- snd (run_chain ?c ?w' ?r) = match first_answer ?hs _ _ ?p0 with _ => _ end =>
        lazymatch c with
        | context [(H_methodNotAllowed, ?p')] =>
            exact (@run_chain_first_answer w' r hs p0 p')
        end
    end.
Qed.

(** C8 fails before the catch-all is reached: a guest's POST on a match,
  a verb the surface does not list for that path, is answered with 401
  by the login gate. *)
Lemma unlisted_verb_stopped_by_gate :
  In ("/:tid/match/:matchid"%string, [PUT; GET; DELETE]) surface
  /\ ~ In POST [PUT; GET; DELETE]
  /\ match_path (parse_pattern "/:tid/match/:matchid") path_match9 (Params [] None)
     = Some match9
  /\ router forum (guest POST path_match9)
     = ([C_exists (str "5")], Respond 401 (msg "plz log in to access this API")).
Proof.
  split; [cbn; auto 6 |]. split; [| split; vm_compute; reflexivity].
  intros [H | [H | [H | []]]]; discriminate.
Qed.

Lemma unlisted_verb_405_witness :
  answered [PUT; GET; DELETE] (method (member POST path_match9)) = false
  /\ snd (router forum (member POST path_match9))
     = Respond 405 (msg "Method not allowed").
Proof.
  split; [reflexivity |].
  refine (proj2 (@unlisted_verb_405 forum (member POST path_match9)
                   "/:tid/match/:matchid" [PUT; GET; DELETE] match9 _ _ _ _) _).
  - cbn. auto.
  - cbn. auto 6.
  - reflexivity.
  - vm_compute. reflexivity.
  - repeat split; vm_compute; reflexivity.
Defined.

(** A HEAD on a path with a GET route is answered by the GET handlers, not
  by the catch-all. *)
Example head_runs_get_handlers :
  router forum (member HEAD path_match9)
  = ([C_exists (str "5"); C_canSee 7 (str "5"); C_api matchApi_get],
     Respond 200 (JObj [])).
Proof. vm_compute. reflexivity. Qed.

(** On a listed path without catch-all an unlisted verb reaches no handler
  of the router and goes back to the host. *)
Example unguarded_path_falls_through :
  snd (router forum (member POST [str "5"; str "slotted-user-ids"])) = Next.
Proof. vm_compute. reflexivity. Qed.

(** *** Errors reported by dependencies *)

(** The gates that read the topic store answer a reported error with 500
  and the error's message. *)
Lemma requireTopic_error w req p e :
  topicDb_exists w (tid p) = inl e ->
  requireTopic w req p = ([C_exists (tid p)], Respond 500 (exceptionToErrorResponse e))
  /\ is_message_body (exceptionToErrorResponse e) = true.
Proof. unfold requireTopic, bind, ask. intros ->. split; reflexivity. Qed.

Lemma restrictCategories_error w req p e :
  allowedCategories (cfg w) <> [] ->
  topicDb_getCategoryId w (tid p) = inl e ->
  snd (restrictCategories w req p) = Respond 500 (exceptionToErrorResponse e).
Proof.
  unfold restrictCategories, bind, ask.
  destruct (allowedCategories (cfg w)); [congruence |]. now intros _ ->.
Qed.

Lemma requireEventInFuture_error w req p e :
  topicDb_getTitle w (tid p) = inl e ->
  snd (requireEventInFuture w req p) = Respond 500 (exceptionToErrorResponse e).
Proof. unfold requireEventInFuture, bind, ask. now intros ->. Qed.

(** C9, the code at a failing input: when the edit-permission lookup
  reports an error, [requireAdminOrThreadOwner] answers 500 with the error
  value itself as body, not with [{ message }]; when the permission
  provider reports one, [requireCanSeeAttendance] throws it and sends no
  response at all. *)
Theorem dependency_error_not_reported :
  requireAdminOrThreadOwner broken_forum (member PUT path_match9) match9
    = ([C_isAllowedToEdit 7 5], Respond 500 (JErr db_down))
  /\ is_message_body (JErr db_down) = false
  /\ JErr db_down <> exceptionToErrorResponse db_down
  /\ requireCanSeeAttendance broken_forum (member GET path_match9) match9
     = ([C_canSee 7 (str "5")], Throw db_down).
Proof. repeat split; try reflexivity. discriminate. Qed.

End GateFacts.

(* ================================================================== *)
(** * Part III: further properties of the code *)
(* ================================================================== *)

(** ** Which dependencies the handlers consult *)

Section ConsultFacts.
Import JS Api ApiSpec Routes.

Ltac split_handler :=
  repeat (cbn [bind ask ret fst snd app];
          match goal with
          | |- context [match ?x with _ => _ end] =>
              lazymatch x with
              | context [match _ with _ => _ end] => fail
              | _ => destruct x
              end
          end);
  cbn [bind ask ret fst snd app In].

Lemma api_eqb_eq a b : api_eqb a b = true <-> a = b.
Proof. destruct a, b; split; intros H; try reflexivity; discriminate H. Qed.

Lemma handler_eqb_eq g h : handler_eqb g h = true <-> g = h.
Proof.
  destruct g, h; cbn [handler_eqb]; rewrite ?api_eqb_eq;
    split; intros H; try reflexivity; try discriminate H; congruence.
Qed.

(** X1: a handler consults nothing but its own dependency: the topic gate
  the existence of the topic, the category gate the category, the event
  gate the title, the attendance gates the permission provider or the
  share store, the owner gate and the probe the edit permission (and the
  log or the groups), an API route its API handler. *)
Theorem run_handler_consults (h : handler) (w : world) (req : request)
  (p : params) (c : call) :
  In c (fst (run_handler h w req p)) -> may_consult h c = true.
Proof.
  destruct h; cbn [run_handler];
    [ unfold requireTopic | unfold restrictCategories | unfold requireLoggedIn
    | unfold requireEventInFuture | unfold requireCanSeeAttendance
    | unfold requireCanWriteAttendance | unfold requireAdminOrThreadOwner
    | unfold isAdminOrThreadOwner | unfold returnSuccess | unfold methodNotAllowed
    | unfold ask; cbn [fst In] ];
    try split_handler;
    intros H;
    repeat (destruct H as [<- | H]; [try reflexivity |]);
    try contradiction.
  cbn [may_consult]. now apply api_eqb_eq.
Qed.

End ConsultFacts.

(** ** The router as a whole *)

Section RouterFacts.
Import JS Api ApiSpec Routes.

Variable w : world.
Variable req : request.

Lemma fst_bind (A B : Type) (x : M A) (f : A -> M B) :
  fst (bind x f) = fst x ++ fst (f (snd x)).
Proof. unfold bind. destruct x as [t a]. cbn [fst snd]. now destruct (f a). Qed.

Lemma snd_bind (A B : Type) (x : M A) (f : A -> M B) :
  snd (bind x f) = snd (f (snd x)).
Proof. unfold bind. destruct x as [t a]. cbn [fst snd]. now destruct (f a). Qed.

Lemma verb_eqb_eq a b : verb_eqb a b = true <-> a = b.
Proof. destruct a, b; split; intros H; try reflexivity; discriminate H. Qed.

(** Dispatching over two lists of layers: the second list is reached only
  if the first one hands the request on. *)
Lemma dispatch_app ls1 ls2 :
  dispatch (ls1 ++ ls2) w req =
  (o <- dispatch ls1 w req ;;
   match o with
   | Next => dispatch ls2 w req
   | _ => ret o
   end).
Proof.
  induction ls1 as [| l ls1 IH]; cbn [app dispatch].
  - unfold bind, ret. now destruct (dispatch ls2 w req).
  - destruct (handles_method l (method req)); [| exact IH].
    destruct (match_path (parse_pattern (l_path l)) (path req) (Params [] None));
      [| exact IH].
    unfold bind. destruct (run_handler (l_handler l) w req p) as [t o].
    destruct o; cbn [ret].
    + rewrite IH. unfold bind. destruct (dispatch ls1 w req) as [t1 o1].
      destruct o1; cbn [ret];
        [destruct (dispatch ls2 w req); now rewrite app_assoc | |];
        now rewrite !app_nil_r.
    + now rewrite !app_nil_r.
    + now rewrite !app_nil_r.
Qed.

Lemma init_split : init = front_gates ++ resource_routes.
Proof. unfold front_gates, resource_routes. now rewrite firstn_skipn. Qed.

Lemma run_chain_admitted hs :
  snd (run_chain hs w req) = Next ->
  Forall (fun hp => snd (run_handler (fst hp) w req (snd hp)) = Next) hs.
Proof.
  induction hs as [| [h p] hs IH]; [constructor |].
  cbn [run_chain]. rewrite snd_bind.
  destruct (snd (run_handler h w req p)) eqn:E; try discriminate.
  intros H. constructor; [exact E | now apply IH].
Qed.

Lemma run_chain_consults hs c :
  In c (fst (run_chain hs w req)) ->
  exists h p, In (h, p) hs /\ In c (fst (run_handler h w req p)).
Proof.
  induction hs as [| [h p] hs IH]; [intros [] |].
  cbn [run_chain]. rewrite fst_bind, in_app_iff. intros [H | H].
  - exists h, p. split; [now left | exact H].
  - destruct (snd (run_handler h w req p)); try contradiction.
    destruct (IH H) as (h' & p' & Hin & Hc). exists h', p'. split; [now right | exact Hc].
Qed.

Lemma run_chain_stop h p hs :
  snd (run_handler h w req p) <> Next ->
  run_chain ((h, p) :: hs) w req = run_handler h w req p.
Proof.
  cbn [run_chain]. unfold bind. destruct (run_handler h w req p) as [t o].
  cbn [snd]. destruct o; [congruence | |]; intros _; cbn [ret];
    now rewrite app_nil_r.
Qed.

(** The gates that run in front of the resource routes, by verb and by the
  number of path segments. *)
Lemma front_chain_shape v segs :
  chain front_gates v segs =
  match segs with
  | [] => []
  | [_] => [(H_requireTopic, topic_params segs);
            (H_restrictCategories, topic_params segs)]
  | _ :: _ :: _ =>
      [(H_requireTopic, topic_params segs);
       (H_restrictCategories, topic_params segs)]
      ++ (if is_mutating v
          then [(H_requireLoggedIn, topic_params segs);
                (H_restrictCategories, topic_params segs);
                (H_requireEventInFuture, topic_params segs)]
          else [])
  end.
Proof.
  destruct v, segs as [| t [| r rest]]; vm_compute; reflexivity.
Qed.

Lemma resource_chain_nil v : chain resource_routes v [] = [].
Proof. destruct v; vm_compute; reflexivity. Qed.

Lemma resource_chain_single v t :
  is_mutating v = true -> chain resource_routes v [t] = [].
Proof. destruct v; try discriminate; intros _; vm_compute; reflexivity. Qed.

Lemma in_ret (A : Type) (c : call) (a : A) : ~ In c (fst (ret a)).
Proof. intros []. Qed.

(** X2: an API handler is called only for a request that has passed the
  gates in front of the routes: the topic exists, its category is allowed
  and, for POST, PUT and DELETE, the caller is logged in (or holds the API
  key) and the event lies ahead. *)
Theorem api_call_passed_front_gates (a : api) :
  In (C_api a) (fst (router w req)) -> gates_pass w req.
Proof.
  unfold router. rewrite init_split, dispatch_app, fst_bind, in_app_iff.
  rewrite !(dispatch_chain front_gates). intros [H | H].
  - apply run_chain_consults in H. destruct H as (h & p & Hin & Hc).
    apply run_handler_consults in Hc. rewrite front_chain_shape in Hin.
    destruct (path req) as [| t [| r rest]]; [destruct Hin | |];
      destruct (is_mutating (method req)); cbn [app In] in Hin;
      repeat (destruct Hin as [Hin | Hin];
              [inversion Hin; subst h; discriminate Hc |]);
      destruct Hin.
  - destruct (snd (run_chain (chain front_gates (method req) (path req)) w req))
      eqn:E; [| destruct H | destruct H].
    apply run_chain_admitted in E. rewrite front_chain_shape in E.
    rewrite dispatch_chain in H. unfold gates_pass, admits.
    destruct (path req) as [| t [| r rest]].
    + rewrite resource_chain_nil in H. destruct H.
    + inversion E as [| x l E1 E']; subst. inversion E' as [| x l E2 _]; subst.
      split; [exact E1 | split; [exact E2 |]].
      intros Hm. rewrite resource_chain_single in H by exact Hm. destruct H.
    + destruct (is_mutating (method req)); cbn [app] in E;
        inversion E as [| x1 l1 E1 E']; subst;
        inversion E' as [| x2 l2 E2 E'']; subst.
      * inversion E'' as [| x3 l3 E3 E3']; subst.
        inversion E3' as [| x4 l4 E4 E4']; subst.
        inversion E4' as [| x5 l5 E5 _]; subst.
        split; [exact E1 | split; [exact E2 |]].
        intros _. split; [exact E3 | exact E5].
      * split; [exact E1 | split; [exact E2 |]]. discriminate.
Qed.

Lemma is_layer_true v s h l :
  is_layer v s h l = true -> l_method l = Some v /\ l_path l = s /\ l_handler l = h.
Proof.
  unfold is_layer. rewrite !andb_true_iff, String.eqb_eq, handler_eqb_eq.
  destruct (l_method l) as [v' |]; [| intros [[H _] _]; discriminate].
  rewrite verb_eqb_eq. intros [[-> ->] ->]. auto.
Qed.

Lemma guarded_dispatch ls :
  forall prev,
    api_guarded prev ls = true ->
    (forall g, prev = Some g ->
       handles_method g (method req) = true ->
       forall p, match_path (parse_pattern (l_path g)) (path req) (Params [] None)
                 = Some p ->
                 snd (run_handler (l_handler g) w req p) = Next) ->
    forall a, In (C_api a) (fst (dispatch ls w req)) ->
      let '(v, s, g) := guard_of a in
      answers_verb v (method req) = true
      /\ exists p, match_path (parse_pattern s) (path req) (Params [] None) = Some p
                   /\ snd (run_handler g w req p) = Next.
Proof.
  induction ls as [| l ls IH]; intros prev G Hprev a H; [destruct H |].
  cbn [api_guarded] in G. apply andb_true_iff in G. destruct G as [Gl G].
  cbn [dispatch] in H.
  destruct (handles_method l (method req)) eqn:Hm.
  2:{ apply (IH (Some l)); auto. intros g Eg. inversion Eg; subst g. congruence. }
  destruct (match_path (parse_pattern (l_path l)) (path req) (Params [] None))
    as [p |] eqn:Hp.
  2:{ apply (IH (Some l)); auto. intros g Eg. inversion Eg; subst g. congruence. }
  rewrite fst_bind, in_app_iff in H. destruct H as [H | H].
  - apply run_handler_consults in H.
    destruct (l_handler l) as [| | | | | | | | | | b] eqn:Hh; try discriminate H.
    cbn [may_consult] in H. apply api_eqb_eq in H. subst b.
    destruct (guard_of a) as [[v s] g].
    apply andb_true_iff in Gl. destruct Gl as [La Lg].
    apply is_layer_true in La. destruct La as (Lm & Lp & _).
    destruct prev as [gl |]; [| discriminate].
    apply is_layer_true in Lg. destruct Lg as (Gm & Gp & Gh).
    unfold handles_method in Hm. rewrite Lm in Hm.
    split; [exact Hm |].
    exists p. rewrite <- Lp. split; [exact Hp |]. rewrite <- Gh.
    apply (Hprev gl eq_refl).
    + unfold handles_method. now rewrite Gm.
    + now rewrite Gp, <- Lp.
  - destruct (snd (run_handler (l_handler l) w req p)) eqn:Ho;
      [| destruct H | destruct H].
    apply (IH (Some l)); auto.
    intros g Eg _ p' Hp'. inversion Eg; subst g. congruence.
Qed.

(** X3: an API handler is called only for a verb that its route answers
  (the verb it is registered for, or HEAD where that is GET) and for the
  path it is registered for, and only after the gate registered in front
  of it has admitted the request with the parameters of that path: the
  attendance read gate for reads, the owner gate for matches, share
  tokens and reservations, the attendance write gate for slot occupants,
  and only the topic gate for reading a single share token. *)
Theorem api_call_passed_its_gate (a : api) :
  In (C_api a) (fst (router w req)) ->
  let '(v, s, g) := guard_of a in
  answers_verb v (method req) = true
  /\ exists p, match_path (parse_pattern s) (path req) (Params [] None) = Some p
               /\ admits (run_handler g) w req p.
Proof.
  apply (@guarded_dispatch init None).
  - vm_compute. reflexivity.
  - discriminate.
Qed.

(** X4: a POST, PUT or DELETE below a topic by a caller who is neither
  logged in nor holds the API key is answered 401, whatever else the
  request carries (a share token included), once the topic and category
  gates have let it through. *)
Theorem guest_mutation_unauthorized :
  is_mutating (method req) = true ->
  (2 <= List.length (path req))%nat ->
  admits requireTopic w req (topic_params (path req)) ->
  admits restrictCategories w req (topic_params (path req)) ->
  presents_api_key w req = false ->
  uid req = 0%Z ->
  snd (router w req) = Respond 401 (msg "plz log in to access this API").
Proof.
  intros Hm Hl Ht Hc Hk Hu. unfold router.
  rewrite init_split, dispatch_app, snd_bind, dispatch_chain, front_chain_shape.
  destruct (path req) as [| t [| r rest]]; cbn [List.length] in Hl; try lia.
  rewrite Hm. cbn [app].
  rewrite run_chain_next by exact Ht.
  rewrite run_chain_next by exact Hc.
  rewrite run_chain_stop; cbn [run_handler]; unfold requireLoggedIn;
    rewrite Hk, Hu; [reflexivity | discriminate].
Qed.

Lemma expand_plain matched before after r :
  ~ In 36%N r -> expand matched before after r = r.
Proof.
  induction r as [| c r IH]; [reflexivity |]. intros H. cbn [expand].
  destruct (N.eqb_spec c 36) as [E | E].
  - exfalso. apply H. now left.
  - f_equal. apply IH. intros Hin. apply H. now right.
Qed.

(** X5: whatever the verb and the rest of the path, a request for a topic
  that does not exist is answered 404 after the one store lookup, with
  the message template in which the topic id has replaced [%d]; no other
  dependency is consulted. For an id without a dollar sign the message is
  [topic], the id, [does not exist]. *)
Theorem missing_topic_404 (t : jsstring) (rest : list jsstring) :
  path req = t :: rest ->
  topicDb_exists w t = inr false ->
  router w req = ([C_exists t], Respond 404 (msg_tid "topic %d does not exist" t))
  /\ (~ In 36%N t ->
      msg_tid "topic %d does not exist" t
      = JObj [("message"%string, JStr (str "topic " ++ t ++ str " does not exist"))]).
Proof.
  intros Hp He. split.
  - unfold router.
    rewrite init_split, dispatch_app, dispatch_chain, front_chain_shape, Hp.
    assert (R : run_handler H_requireTopic w req (topic_params (t :: rest))
                = ([C_exists t], Respond 404 (msg_tid "topic %d does not exist" t))).
    { unfold topic_params. cbn [run_handler hd].
      unfold requireTopic, bind, ask, ret. cbn [tid]. rewrite He. reflexivity. }
    destruct rest as [| r rest]; cbn [app];
      (rewrite run_chain_stop; [| rewrite R; discriminate]);
      rewrite R; reflexivity.
  - intros Hd. unfold msg_tid, replace.
    assert (S : split_at_first (str "%d") (str "topic %d does not exist")
                = Some (str "topic ", str " does not exist"))
      by (vm_compute; reflexivity).
    rewrite S, (@expand_plain (str "%d") (str "topic ") (str " does not exist") t Hd).
    reflexivity.
Qed.

(** A topic id with a replacement pattern is not repeated as it is. *)
Example dollar_in_topic_id :
  msg_tid "topic %d does not exist" (str "$&")
  = JObj [("message"%string, JStr (str "topic %d does not exist"))].
Proof. reflexivity. Qed.

Lemma probe_responds p : snd (isAdminOrThreadOwner w req p) <> Next.
Proof.
  unfold isAdminOrThreadOwner, bind, ask, ret.
  repeat match goal with
         | |- context [match ?x with _ => _ end] =>
             lazymatch x with
             | context [match _ with _ => _ end] => fail
             | _ => destruct x
             end
         end; discriminate.
Qed.

(** X6: a GET on the has-permissions path that has passed the topic and
  category gates is answered by the probe; the [returnSuccess] handler
  registered behind the probe never runs. *)
Theorem has_permissions_is_probe (t : jsstring) :
  method req = GET ->
  path req = [t; str "has-permissions"] ->
  admits requireTopic w req (Params t None) ->
  admits restrictCategories w req (Params t None) ->
  snd (router w req) = snd (isAdminOrThreadOwner w req (Params t None)).
Proof.
  intros Hm Hp Ht Hc. unfold router. rewrite dispatch_chain, Hm, Hp.
  assert (E : chain init GET [t; str "has-permissions"]
              = [(H_requireTopic, Params t None);
                 (H_restrictCategories, Params t None);
                 (H_isAdminOrThreadOwner, Params t None);
                 (H_returnSuccess, Params t None)]) by (vm_compute; reflexivity).
  rewrite E.
  rewrite run_chain_next by exact Ht.
  rewrite run_chain_next by exact Hc.
  rewrite run_chain_stop; [reflexivity | apply probe_responds].
Qed.

Lemma never_runs_dispatch h ls c :
  never_runs h (method req) ls = true ->
  (forall h', may_consult h' c = true -> h' = h) ->
  ~ In c (fst (dispatch ls w req)).
Proof.
  intros N Honly. induction ls as [| l ls IH]; [intros [] |].
  cbn [never_runs forallb] in N. apply andb_true_iff in N. destruct N as [Nl N].
  cbn [dispatch].
  destruct (handles_method l (method req)) eqn:Hm; [| now apply IH].
  destruct (match_path (parse_pattern (l_path l)) (path req) (Params [] None));
    [| now apply IH].
  rewrite fst_bind, in_app_iff. intros [H | H].
  - apply run_handler_consults, Honly in H. rewrite H in Nl.
    cbn [andb] in Nl. rewrite (proj2 (handler_eqb_eq h h) eq_refl) in Nl.
    discriminate.
  - destruct (snd (run_handler (l_handler l) w req p)); [| destruct H | destruct H].
    now apply IH in H.
Qed.

(** X7: for a verb other than POST, PUT and DELETE the router never reads
  the topic title: the event window does not apply to reads. *)
Theorem reads_never_consult_title (t : jsstring) :
  is_mutating (method req) = false ->
  ~ In (C_getTitle t) (fst (router w req)).
Proof.
  intros Hm. apply (@never_runs_dispatch H_requireEventInFuture).
  - destruct (method req); try discriminate; vm_compute; reflexivity.
  - intros h' H. destruct h'; try discriminate H; reflexivity.
Qed.

End RouterFacts.

(** ** The gates one by one *)

Section MoreGateFacts.
Import JS Regex Api ApiSpec Routes.

Variable w : world.
Variable req : request.
Variable p : params.

(** X8: the owner gate admits a request exactly when it presents the API
  key, or comes from a logged-in user for a topic id that [parseInt]
  reads as a Number other than NaN and zero and the edit permission is
  granted for that user and that Number. *)
Theorem requireAdminOrThreadOwner_admits_iff :
  admits requireAdminOrThreadOwner w req p <->
  presents_api_key w req = true
  \/ (uid req <> 0%Z
      /\ PrimFloat.is_nan (parseInt10 (tid p)) = false
      /\ PrimFloat.is_zero (parseInt10 (tid p)) = false
      /\ topicDb_isAllowedToEdit w (uid req) (parseInt10 (tid p)) = inr true).
Proof.
  unfold admits, requireAdminOrThreadOwner, truthy_int, truthy_number.
  destruct (presents_api_key w req); [split; auto |].
  destruct (PrimFloat.is_nan (parseInt10 (tid p))); cbn [negb orb].
  { split; [discriminate |]. intros [H | (_ & H & _)]; discriminate. }
  destruct (PrimFloat.is_zero (parseInt10 (tid p))); cbn [negb orb].
  { split; [discriminate |]. intros [H | (_ & _ & H & _)]; discriminate. }
  destruct (Z.eqb_spec (uid req) 0) as [Eu | Eu].
  { split; [discriminate |]. intros [H | (Hu & _)]; congruence. }
  unfold bind, ask, ret.
  destruct (topicDb_isAllowedToEdit w (uid req) (parseInt10 (tid p)))
    as [e | []] eqn:Ed; cbn [snd].
  - split; [discriminate |]. intros [H | (_ & _ & _ & H)]; discriminate.
  - split; auto.
  - split; [discriminate |]. intros [H | (_ & _ & _ & H)]; discriminate.
Qed.

(** A topic id beyond 2^53 reaches the store as the Number nearest to it. *)
Example topic_id_is_rounded :
  fst (requireAdminOrThreadOwner Samples.forum
         (Samples.member PUT Samples.path_match9)
         (Params (str "9007199254740993") None))
  = [C_isAllowedToEdit 7 9007199254740992; C_loggerError 7 9007199254740992].
Proof. vm_compute. reflexivity. Qed.

(** X9: with an API key that was never set or was set to the empty string
  nothing presents the key, an empty header included: the login gate
  admits exactly the logged-in callers and the owner gate admits no
  guest. *)
Theorem empty_api_key_opens_nothing :
  apiKey (cfg w) = None \/ apiKey (cfg w) = apiKey (setApiKey [] (cfg w)) ->
  (admits requireLoggedIn w req p <-> uid req <> 0%Z)
  /\ (admits requireAdminOrThreadOwner w req p -> uid req <> 0%Z).
Proof.
  intros Hk.
  assert (K : presents_api_key w req = false).
  { unfold presents_api_key. cbn [setApiKey apiKey] in Hk.
    destruct Hk as [-> | ->]; [reflexivity |]. now destruct (x_api_key req). }
  split.
  - unfold admits, requireLoggedIn. rewrite K.
    destruct (Z.eqb_spec (uid req) 0) as [E | E]; cbn [negb snd ret]; split;
      try discriminate; try congruence; auto.
  - unfold admits, requireAdminOrThreadOwner. rewrite K.
    destruct (Z.eqb_spec (uid req) 0) as [E | E]; [| auto].
    rewrite orb_true_r. discriminate.
Qed.

(** X10: the category gate admits a request exactly when no category list
  is configured, or the topic's category is read without error and is on
  the list. *)
Theorem restrictCategories_admits_iff :
  admits restrictCategories w req p <->
  allowedCategories (cfg w) = []
  \/ exists cid, topicDb_getCategoryId w (tid p) = inr cid
                 /\ In cid (allowedCategories (cfg w)).
Proof.
  unfold admits, restrictCategories.
  destruct (allowedCategories (cfg w)) as [| c cs] eqn:Ea; [split; auto |].
  unfold bind, ask, ret.
  destruct (topicDb_getCategoryId w (tid p)) as [e | cid]; cbn [snd].
  - split; [discriminate |]. intros [H | (cid & H & _)]; discriminate.
  - destruct (existsb (Z.eqb cid) (c :: cs)) eqn:Ex; cbn [negb snd].
    + split; auto. intros _. right. exists cid. split; [reflexivity |].
      apply existsb_exists in Ex. destruct Ex as (x & Hin & Hx).
      apply Z.eqb_eq in Hx. now subst x.
    + split; [discriminate |]. intros [H | (cid' & E & Hin)]; [discriminate |].
      inversion E; subst cid'.
      assert (existsb (Z.eqb cid) (c :: cs) = true).
      { apply existsb_exists. exists cid. split; [exact Hin | apply Z.eqb_refl]. }
      congruence.
Qed.

Lemma event_title_shape (title : jsstring) :
  truthy_match (topicIsEvent title) = true <-> has_date_separator (trim title).
Proof.
  unfold topicIsEvent, exec, has_date_separator. split.
  - destruct (search true re_topicIsEvent (trim title)) as [st |] eqn:Hs;
      [intros _ | discriminate].
    apply search_some in Hs. destruct Hs as (pre & post & E & L).
    apply lang_topicIsEvent in L. destruct L as (d & c & Ew & Hd & Hc).
    exists pre, d, c, post. rewrite E, Ew, <- app_assoc. auto.
  - intros (pre & d & c & post & E & Hd & Hc).
    assert (L : lang true re_topicIsEvent (d ++ [c])).
    { apply lang_topicIsEvent. eauto. }
    apply (@search_complete true re_topicIsEvent pre (d ++ [c]) post) in L.
    replace (pre ++ (d ++ [c]) ++ post) with (trim title) in L
      by (now rewrite E, <- app_assoc).
    destruct (search true re_topicIsEvent (trim title)); [reflexivity | congruence].
Qed.

(** X11: the event gate admits a request exactly when the topic has a
  title whose trimmed text contains a date followed by a separator and
  [secondsToEvent] of that title is not below zero. *)
Theorem requireEventInFuture_admits_iff :
  admits requireEventInFuture w req p <->
  exists title,
    topicDb_getTitle w (tid p) = inr (Some title)
    /\ has_date_separator (trim title)
    /\ (secondsToEvent w title <? 0)%float = false.
Proof.
  unfold admits, requireEventInFuture, bind, ask, ret.
  destruct (topicDb_getTitle w (tid p)) as [e | [title |]]; cbn [snd].
  - split; [discriminate | intros (t & E & _); discriminate].
  - destruct title as [| c title].
    + split; [discriminate |]. intros (t & E & H & _). inversion E; subst t.
      apply event_title_shape in H. discriminate H.
    + destruct (truthy_match (topicIsEvent (c :: title))) eqn:Ev; cbn [negb].
      * destruct (secondsToEvent w (c :: title) <? 0)%float eqn:El; cbn [snd].
        -- split; [discriminate |]. intros (t & E & _ & H).
           inversion E; subst t. congruence.
        -- split; auto. intros _. exists (c :: title).
           repeat split; auto. now apply event_title_shape.
      * cbn [snd]. split; [discriminate |]. intros (t & E & H & _).
        inversion E; subst t. apply event_title_shape in H. congruence.
  - split; [discriminate | intros (t & E & _); discriminate].
Qed.

Lemma nan_not_negative (x : float) : ((nan - x) / 1000 <? 0)%float = false.
Proof.
  rewrite FloatAxioms.ltb_spec, FloatAxioms.div_spec, FloatAxioms.sub_spec.
  replace (Prim2SF nan) with SpecFloat.S754_nan by reflexivity.
  reflexivity.
Qed.

Lemma unreadable_date_countdown (title : jsstring) :
  truthy_match (topicIsEvent title) = true ->
  (forall dateParts,
      exec true re_secondsToEvent (trim title) = Some dateParts ->
      Date_parse w (whole dateParts) = None) ->
  (secondsToEvent w title <? 0)%float = false.
Proof.
  intros Ev Hd. unfold secondsToEvent, exec in *.
  destruct (search true re_secondsToEvent (trim title)) as [st |] eqn:Ex.
  - cbn [option_map] in *. specialize (Hd (to_array st) eq_refl).
    apply search_some in Ex. destruct Ex as (_ & _ & _ & L).
    apply lang_seconds_nonempty in L. cbn [to_array whole] in *.
    destruct (rev (seen st)) as [| c0 r0] eqn:Er; [congruence |].
    cbn [truthy_str negb]. unfold eventDate. cbn [to_array whole]. rewrite Er, Hd.
    destruct (negb (truthy_group (group (to_array st) 2)));
      cbn [add_day getTime]; apply nan_not_negative.
  - apply search_event_iff in Ex. unfold topicIsEvent, exec in Ev.
    rewrite Ex in Ev. discriminate Ev.
Qed.

(** X12: an event title whose matched text [Date] cannot read is never
  locked: the countdown is NaN, which is not below zero, and the event
  gate admits the request. *)
Theorem unreadable_date_is_admitted (title : jsstring) :
  topicDb_getTitle w (tid p) = inr (Some title) ->
  truthy_match (topicIsEvent title) = true ->
  (forall dateParts,
      exec true re_secondsToEvent (trim title) = Some dateParts ->
      Date_parse w (whole dateParts) = None) ->
  admits requireEventInFuture w req p.
Proof.
  intros Ht Ev Hd. unfold admits, requireEventInFuture, bind, ask, ret.
  rewrite Ht. destruct title as [| c title]; [discriminate Ev |].
  rewrite Ev, (@unreadable_date_countdown (c :: title) Ev Hd). reflexivity.
Qed.

End MoreGateFacts.

(** ** White space around a title *)

Section PaddingFacts.
Import JS Regex Api ApiSpec.

Lemma trimStart_padding ws s :
  forallb isWhiteSpace ws = true -> trimStart (ws ++ s) = trimStart s.
Proof.
  induction ws as [| c ws IH]; [reflexivity |]. cbn [forallb app trimStart].
  intros H. apply andb_true_iff in H. destruct H as [Hc H]. rewrite Hc. auto.
Qed.

Lemma trimStart_all ws : forallb isWhiteSpace ws = true -> trimStart ws = [].
Proof.
  intros H. rewrite <- (app_nil_r ws). now rewrite trimStart_padding.
Qed.

Lemma trimStart_app s ws :
  trimStart s <> [] -> trimStart (s ++ ws) = trimStart s ++ ws.
Proof.
  induction s as [| c s IH]; [cbn; congruence |]. cbn [app trimStart].
  destruct (isWhiteSpace c); auto.
Qed.

Lemma forallb_rev (f : N -> bool) l : forallb f (rev l) = forallb f l.
Proof.
  induction l as [| x l IH]; [reflexivity |]. cbn [rev forallb].
  rewrite forallb_app, IH. cbn [forallb]. rewrite andb_true_r. apply andb_comm.
Qed.

Lemma trimStart_nil_all s : trimStart s = [] -> forallb isWhiteSpace s = true.
Proof.
  induction s as [| c s IH]; [reflexivity |]. cbn [trimStart forallb].
  destruct (isWhiteSpace c); [auto | discriminate].
Qed.

Lemma trimEnd_padding s ws :
  forallb isWhiteSpace ws = true -> trimEnd (s ++ ws) = trimEnd s.
Proof.
  intros H. unfold trimEnd. rewrite rev_app_distr.
  rewrite trimStart_padding; [reflexivity | now rewrite forallb_rev].
Qed.

Lemma trim_padding ws1 s ws2 :
  forallb isWhiteSpace ws1 = true ->
  forallb isWhiteSpace ws2 = true ->
  trim (ws1 ++ s ++ ws2) = trim s.
Proof.
  intros H1 H2. unfold trim. rewrite trimStart_padding by exact H1.
  destruct (trimStart s) as [| c r] eqn:Es.
  - apply trimStart_nil_all in Es.
    rewrite trimStart_all; [reflexivity |]. rewrite forallb_app, Es. exact H2.
  - rewrite trimStart_app by congruence. rewrite Es.
    now apply trimEnd_padding.
Qed.

(** X13: white space in front of a title and behind it changes neither
  whether the title is an event nor the seconds to the event. *)
Theorem title_padding_is_ignored (w : world) (ws1 title ws2 : jsstring) :
  forallb isWhiteSpace ws1 = true ->
  forallb isWhiteSpace ws2 = true ->
  topicIsEvent (ws1 ++ title ++ ws2) = topicIsEvent title
  /\ secondsToEvent w (ws1 ++ title ++ ws2) = secondsToEvent w title.
Proof.
  intros H1 H2. unfold topicIsEvent, secondsToEvent.
  now rewrite (@trim_padding ws1 title ws2 H1 H2).
Qed.

End PaddingFacts.

(** ** The hooks once more *)

Section MoreHookFacts.
Import Plugin.

Variable E : env.

(** X14: [catchAttendanceChange] calls its callback at least once and at
  most twice, and exactly once when the callback does not throw; without
  a callback nothing is thrown at all. *)
Theorem catchAttendanceChange_calls_back (params : attendance_change)
  (callback : option callback_fn) :
  let x := catchAttendanceChange E params callback in
  (1 <= List.length (callbacks (trace x)) <= 2)%nat
  /\ ((forall f, callback = Some f -> forall err r, f err r = None) ->
      List.length (callbacks (trace x)) = 1%nat /\ snd x = inr tt).
Proof.
  unfold catchAttendanceChange.
  set (cb := match callback with Some f => f | None => noop end).
  assert (Hcb : (forall f, callback = Some f -> forall err r, f err r = None) ->
                forall err r, cb err r = None).
  { intros H err r. subst cb. destruct callback as [f |]; [eauto | reflexivity]. }
  clearbody cb.
  unfold invoke, perform, then_catch, try_catch, bind, ret.
  destruct (1 <=? probability params)%float;
    [| destruct (unattendUser E (tid params) (uid params)) as [n | e];
       [destruct (negb (n =? 0)%N);
        [destruct (notifyAutoUnslotted E (tid params) (uid params) n) as [e |] |] |]];
    repeat match goal with
           | |- context [cb ?a ?b] =>
               let E1 := fresh "E" in destruct (cb a b) eqn:E1
           end;
    cbn; (split; [lia |]); intros H;
    repeat match goal with
           | E1 : cb _ _ = Some _ |- _ => rewrite (Hcb H) in E1; discriminate E1
           end;
    auto.
Qed.

(** X15: when the removal has gone through but sending the notification
  throws, the callback is called once, with that error: the caller is told
  of a failure although the user has been removed. *)
Theorem notification_failure_reported (params : attendance_change)
  (callback : option callback_fn) (n : N) (thrown : error) :
  (1 <=? probability params)%float = false ->
  unattendUser E (tid params) (uid params) = Resolved n ->
  n <> 0%N ->
  notifyAutoUnslotted E (tid params) (uid params) n = Some thrown ->
  trace (catchAttendanceChange E params callback)
  = [UnattendUser (tid params) (uid params);
     NotifyAutoUnslotted (tid params) (uid params) n;
     Callback (Some thrown) None].
Proof.
  intros Hp Hu Hn Ht. unfold catchAttendanceChange. rewrite Hp, Hu.
  apply N.eqb_neq in Hn.
  unfold invoke, perform, then_catch, try_catch, bind, ret. rewrite Hn, Ht.
  cbn. now destruct (match callback with Some f => f | None => noop end
                       (Some thrown) None).
Qed.

(** X16: [filterAttendanceSlotted] calls its callback at least once and
  at most twice, and exactly once when the callback does not throw;
  whenever it passes an error it passes the empty list with it. *)
Theorem filterAttendanceSlotted_calls_back (sp : slotted_params) (cb : callback_fn) :
  let t := trace (filterAttendanceSlotted E sp cb) in
  (1 <= List.length (callbacks t) <= 2)%nat
  /\ ((forall err r, cb err r = None) -> List.length (callbacks t) = 1%nat)
  /\ (forall e r, In (Callback (Some e) r) t -> r = Some []).
Proof.
  unfold filterAttendanceSlotted, invoke, perform, then_catch, try_catch, bind, ret.
  destruct (getSlottedUserIds E (f_tid sp)) as [ids | e].
  - destruct (cb None (Some ids)) as [e |] eqn:E1.
    + destruct (cb (Some e) (Some [])); cbn;
        (split; [lia |]); (split;
          [intros H; rewrite H in E1; discriminate |]);
        intros e' r [H | [H | [H | [H | []]]]]; inversion H; reflexivity.
    + cbn. split; [lia |]. split; [reflexivity |].
      intros e' r [H | [H | [H | []]]]; inversion H.
  - cbn. destruct (cb (Some e) (Some [])); cbn; (split; [lia |]);
      (split; [reflexivity |]);
      intros e' r [H | [H | []]]; inversion H; reflexivity.
Qed.

End MoreHookFacts.

(** ** The plugin's short id *)

Section MetaFacts.
Import JS PluginMeta.

Lemma is_prefix_app pat s : is_prefix pat (pat ++ s) = true.
Proof.
  induction pat as [| c pat IH]; [reflexivity |]. cbn [app is_prefix].
  now rewrite N.eqb_refl, IH.
Qed.

Lemma skipn_length_app (pat s : jsstring) : skipn (List.length pat) (pat ++ s) = s.
Proof. induction pat; auto. Qed.

Lemma replace_first_absent pat rep s :
  (forall a b, s <> a ++ pat ++ b) -> replace_first pat rep s = s.
Proof.
  induction s as [| c s IH]; intros H.
  - cbn [replace_first]. destruct (is_prefix pat []) eqn:Ep; [| reflexivity].
    destruct pat; [| discriminate Ep]. exfalso. now apply (H [] []).
  - cbn [replace_first]. destruct (is_prefix pat (c :: s)) eqn:Ep.
    + exfalso.
      assert (P : forall q x, is_prefix q x = true -> exists b, x = q ++ b).
      { induction q as [| y q IHq]; intros x Hx; [now exists x |].
        destruct x as [| z x]; [discriminate |]. cbn [is_prefix] in Hx.
        apply andb_true_iff in Hx. destruct Hx as [Hy Hx].
        apply N.eqb_eq in Hy. subst z. destruct (IHq x Hx) as (b & ->).
        now exists b. }
      destruct (P pat (c :: s) Ep) as (b & Eb). now apply (H [] b).
    + f_equal. apply IH. intros a b Eab. apply (H (c :: a) b). now rewrite Eab.
Qed.

(** X17: for a plugin id that starts with [nodebb-plugin-] the short id is
  the rest of the id, and an id that does not contain that text is its
  own short id; the admin menu keeps the entries it finds and appends one
  whose route is [/plugins/] followed by the short id. *)
Theorem menu_route (short nm : jsstring) (plugins : list menu_entry) :
  nbbId (str "nodebb-plugin-" ++ short) = short
  /\ ((forall a b, short <> a ++ str "nodebb-plugin-" ++ b) -> nbbId short = short)
  /\ menu (Meta (str "nodebb-plugin-" ++ short) nm) plugins
     = plugins ++ [MenuEntry (str "fa-calendar") nm (str "/plugins/" ++ short)].
Proof.
  assert (H : nbbId (str "nodebb-plugin-" ++ short) = short).
  { unfold nbbId. set (pat := str "nodebb-plugin-").
    destruct (pat ++ short) as [| c s] eqn:Es; [discriminate Es |].
    cbn [replace_first]. rewrite <- Es, is_prefix_app, skipn_length_app.
    reflexivity. }
  split; [exact H |]. split.
  - intros Ha. unfold nbbId. now apply replace_first_absent.
  - unfold menu. cbn [meta_id meta_name]. now rewrite H.
Qed.

End MetaFacts.

(** ** The properties at sample inputs *)

Section SampleFacts.
Import JS Regex Api ApiSpec Routes Samples MoreSamples.

Lemma run_handler_consults_witness :
  In (C_exists (str "5"))
     (fst (run_handler H_requireTopic forum (member GET path_match9) topic5))
  /\ may_consult H_requireTopic (C_exists (str "5")) = true.
Proof.
  assert (H : In (C_exists (str "5"))
                (fst (run_handler H_requireTopic forum (member GET path_match9)
                        topic5))) by (left; reflexivity).
  split; [exact H |].
  apply (@run_handler_consults H_requireTopic forum (member GET path_match9)
           topic5 (C_exists (str "5")) H).
Defined.

Lemma matches_listed : In (C_api matchApi_getAll) (fst (router forum (member GET [str "5"]))).
Proof. vm_compute. auto. Qed.

Lemma api_call_passed_front_gates_witness :
  In (C_api matchApi_getAll) (fst (router forum (member GET [str "5"])))
  /\ gates_pass forum (member GET [str "5"]).
Proof.
  split; [exact matches_listed |].
  apply (@api_call_passed_front_gates forum (member GET [str "5"]) matchApi_getAll).
  exact matches_listed.
Defined.

Lemma head_listed :
  In (C_api matchApi_getAll) (fst (router forum (member HEAD [str "5"]))).
Proof. vm_compute. auto. Qed.

Lemma api_call_passed_its_gate_witness :
  answers_verb GET (method (member HEAD [str "5"])) = true
  /\ exists p,
       match_path (parse_pattern "/:tid") (path (member HEAD [str "5"])) (Params [] None)
       = Some p
       /\ admits (run_handler H_requireCanSeeAttendance) forum (member HEAD [str "5"]) p.
Proof.
  apply (@api_call_passed_its_gate forum (member HEAD [str "5"]) matchApi_getAll).
  exact head_listed.
Defined.

Lemma guest_mutation_unauthorized_witness :
  snd (router forum (token_guest PUT slot_user_path))
  = Respond 401 (msg "plz log in to access this API").
Proof.
  apply (@guest_mutation_unauthorized forum (token_guest PUT slot_user_path)).
  - reflexivity.
  - cbn. lia.
  - reflexivity.
  - reflexivity.
  - reflexivity.
  - reflexivity.
Defined.

Lemma missing_topic_404_witness :
  router empty_forum (member DELETE path_match9)
  = ([C_exists (str "5")], Respond 404 (msg_tid "topic %d does not exist" (str "5")))
  /\ (~ In 36%N (str "5") ->
      msg_tid "topic %d does not exist" (str "5")
      = JObj [("message"%string,
               JStr (str "topic " ++ str "5" ++ str " does not exist"))]).
Proof.
  apply (@missing_topic_404 empty_forum (member DELETE path_match9) (str "5")
           [str "match"; str "9"]); reflexivity.
Defined.

Lemma has_permissions_is_probe_witness :
  snd (router forum (guest GET [str "5"; str "has-permissions"]))
  = snd (isAdminOrThreadOwner forum (guest GET [str "5"; str "has-permissions"])
           (Params (str "5") None)).
Proof.
  apply (@has_permissions_is_probe forum (guest GET [str "5"; str "has-permissions"])
           (str "5")); reflexivity.
Defined.

Lemma reads_never_consult_title_witness :
  ~ In (C_getTitle (str "5")) (fst (router forum (member GET path_match9))).
Proof.
  apply (@reads_never_consult_title forum (member GET path_match9) (str "5")).
  reflexivity.
Defined.

Lemma empty_api_key_opens_nothing_witness :
  (admits requireLoggedIn keyless_forum (Request PUT path_match9 0 (Some [])) match9
   <-> uid (Request PUT path_match9 0 (Some [])) <> 0%Z)
  /\ (admits requireAdminOrThreadOwner keyless_forum
        (Request PUT path_match9 0 (Some [])) match9
      -> uid (Request PUT path_match9 0 (Some [])) <> 0%Z).
Proof.
  apply (@empty_api_key_opens_nothing keyless_forum
           (Request PUT path_match9 0 (Some [])) match9).
  right. reflexivity.
Defined.

Lemma unreadable_date_is_admitted_witness :
  truthy_match (topicIsEvent (str "Raid 2024-05-01 Night")) = true
  /\ admits requireEventInFuture dateless_forum (member PUT path_match9) topic5.
Proof.
  split; [reflexivity |].
  apply (@unreadable_date_is_admitted dateless_forum (member PUT path_match9) topic5
           (str "Raid 2024-05-01 Night")).
  - reflexivity.
  - reflexivity.
  - intros dateParts _. reflexivity.
Defined.

Lemma title_padding_is_ignored_witness :
  topicIsEvent (str "  " ++ str "Raid 2024-05-01 Night" ++ str " ")
  = topicIsEvent (str "Raid 2024-05-01 Night")
  /\ secondsToEvent forum (str "  " ++ str "Raid 2024-05-01 Night" ++ str " ")
     = secondsToEvent forum (str "Raid 2024-05-01 Night").
Proof.
  apply (@title_padding_is_ignored forum (str "  ") (str "Raid 2024-05-01 Night")
           (str " ")); reflexivity.
Defined.

Lemma notification_failure_reported_witness :
  Plugin.trace (Plugin.catchAttendanceChange silent_sink leaving None)
  = [Plugin.UnattendUser 5 3; Plugin.NotifyAutoUnslotted 5 3 2;
     Plugin.Callback (Some sink_down) None].
Proof.
  apply (@notification_failure_reported silent_sink leaving None 2%N sink_down).
  - reflexivity.
  - reflexivity.
  - discriminate.
  - reflexivity.
Defined.

Lemma matched_text_shape_witness :
  exists dateParts,
    exec true re_secondsToEvent (trim (str "Raid 2024-05-01 8:30")) = Some dateParts
    /\ exists d c,
         is_date_text d = true /\ is_separator c = true
         /\ (whole dateParts = d ++ [c]
             \/ exists t, whole dateParts = d ++ [32%N; t; c]).
Proof.
  destruct (exec true re_secondsToEvent (trim (str "Raid 2024-05-01 8:30")))
    as [dateParts |] eqn:E.
  - exists dateParts. split; [reflexivity |].
    apply (@matched_text_shape (str "Raid 2024-05-01 8:30") dateParts E).
  - vm_compute in E. discriminate E.
Defined.

End SampleFacts.
